(** * yohane.lyrics: normalisation, tokenisation and syllable splitting

    A shallow embedding of [src/yohane/lyrics.py].  Python strings are
    sequences of Unicode code points; a character is its code point, a
    string is a list of characters.  The functions of the module are pure
    ([cached_property] only memoises), so each one is a Rocq function.

    What the module takes from outside itself (CPython's Unicode case
    tables, the [regex] module's case-insensitive matching and POSIX class
    on characters beyond ASCII, and the [pyphen] hyphenator) is gathered in
    the record [Runtime]; every definition is written against an arbitrary
    [Runtime], and on ASCII input none of the Unicode tables is reached. *)

From Stdlib Require Import Ascii String List NArith Bool Lia.
Import ListNotations.

Open Scope N_scope.

(** ** Characters and strings *)

Definition char := N.
Definition str := list char.

(** A Python string literal of printable ASCII characters. *)
Definition py (s : string) : str := map N_of_ascii (list_ascii_of_string s).

(** The code point of an ASCII character. *)
Definition chr (a : ascii) : char := N_of_ascii a.

Definition LF : char := 10.
Definition CR : char := 13.
Definition SPACE : char := 32.
Definition APOSTROPHE : char := 39.
Definition LPAREN : char := 40.
Definition RPAREN : char := 41.
Definition HASH : char := 35.
Definition AT : char := 64.
Definition BAR : char := 124.

Definition str_eqb (a b : str) : bool :=
  if list_eq_dec N.eq_dec a b then true else false.

(** Truth value of a string: [filter(None, ...)] keeps the non-empty ones. *)
Definition truthy (s : str) : bool :=
  match s with [] => false | _ :: _ => true end.

(** ** What the module imports *)

Record Runtime := {
  (** [str.lower()] on a string that has a character beyond ASCII. *)
  unicode_lower : str -> str;
  (** The case variants that [regex] tries for a character beyond ASCII
      when [(?i)] is set. *)
  regex_all_cases : char -> list char;
  (** Membership in [[:alnum:]] of a character beyond ASCII. *)
  regex_alnum : char -> bool;
  (** [pyphen.Pyphen(lang="en_US").inserted(word, hyphen="|")]. *)
  pyphen_inserted : str -> str
}.

(** ** Built-in string methods *)

Definition is_ascii (c : char) : bool := c <? 128.

Definition ascii_lower (c : char) : char :=
  if (65 <=? c) && (c <=? 90) then c + 32 else c.

(** [str.lower()]: CPython lowers an all-ASCII string character by
    character and hands every other string to the Unicode case tables. *)
Definition lower (R : Runtime) (s : str) : str :=
  if forallb is_ascii s then map ascii_lower s else unicode_lower R s.

(** [text.replace(old, new)] for a one-character [old]. *)
Definition replace (old : char) (new : str) (text : str) : str :=
  flat_map (fun c => if c =? old then new else [c]) text.

(** The characters [str.strip()] and [str.split()] treat as whitespace. *)
Definition isspace (c : char) : bool :=
  ((9 <=? c) && (c <=? 13)) || ((28 <=? c) && (c <=? 32))
  || (c =? 133) || (c =? 160) || (c =? 5760)
  || ((8192 <=? c) && (c <=? 8202))
  || (c =? 8232) || (c =? 8233) || (c =? 8239) || (c =? 8287) || (c =? 12288).

Fixpoint lstrip (s : str) : str :=
  match s with
  | [] => []
  | c :: s' => if isspace c then lstrip s' else s
  end.

Definition rstrip (s : str) : str := rev (lstrip (rev s)).

Definition strip (s : str) : str := rstrip (lstrip s).

(** [str.split()] without a separator: the maximal runs of characters that
    are not whitespace, in order.  [cur] is the run being read, reversed. *)
Fixpoint split_ws (cur : str) (s : str) : list str :=
  match s with
  | [] => if truthy cur then [rev cur] else []
  | c :: s' =>
      if isspace c
      then (if truthy cur then rev cur :: split_ws [] s' else split_ws [] s')
      else split_ws (c :: cur) s'
  end.

Definition split (s : str) : list str := split_ws [] s.

(** The line boundaries of [str.splitlines()]. *)
Definition islinebreak (c : char) : bool :=
  ((10 <=? c) && (c <=? 13)) || ((28 <=? c) && (c <=? 30))
  || (c =? 133) || (c =? 8232) || (c =? 8233).

(** [str.splitlines()]: the lines without their boundaries; CR LF is one
    boundary, and nothing is produced after the last boundary. *)
Fixpoint splitlines_from (cur : str) (s : str) : list str :=
  match s with
  | [] => if truthy cur then [rev cur] else []
  | c :: s' =>
      if islinebreak c
      then rev cur ::
           match s' with
           | d :: s'' => if (c =? CR) && (d =? LF)
                         then splitlines_from [] s''
                         else splitlines_from [] s'
           | [] => []
           end
      else splitlines_from (c :: cur) s'
  end.

Definition splitlines (s : str) : list str := splitlines_from [] s.

(** [sep.split]-style split on a one-character separator
    ([result.split("|")]): every piece is kept, the empty ones too. *)
Fixpoint split_on (sep : char) (cur : str) (s : str) : list str :=
  match s with
  | [] => [rev cur]
  | c :: s' => if c =? sep then rev cur :: split_on sep [] s'
               else split_on sep (c :: cur) s'
  end.

(** ** normalize_uroman *)

(** The class [[a-z'\n ()]] of the first substitution. *)
Definition kept (c : char) : bool :=
  ((97 <=? c) && (c <=? 122))
  || (c =? APOSTROPHE) || (c =? LF) || (c =? SPACE)
  || (c =? LPAREN) || (c =? RPAREN).

(** [re.sub("([^a-z'\n ()])", " ", text)]. *)
Definition sub_other (text : str) : str :=
  map (fun c => if kept c then c else SPACE) text.

Definition nl_or_space (c : char) : bool := (c =? LF) || (c =? SPACE).

(** [re.sub("\n[\n ]+", "\n", text)]: a newline followed by at least one
    newline or space is replaced, together with the whole run that follows
    it, by one newline.  [after_nl] tells that the character just written
    is a newline whose run is being consumed. *)
Fixpoint sub_newlines (after_nl : bool) (text : str) : str :=
  match text with
  | [] => []
  | c :: text' =>
      if after_nl && nl_or_space c then sub_newlines true text'
      else c :: sub_newlines (c =? LF) text'
  end.

(** [re.sub(" +", " ", text)]: every run of spaces becomes one space. *)
Fixpoint sub_spaces (after_space : bool) (text : str) : str :=
  match text with
  | [] => []
  | c :: text' =>
      if c =? SPACE
      then (if after_space then sub_spaces true text'
            else c :: sub_spaces true text')
      else c :: sub_spaces false text'
  end.

(** The two arguments of [text.replace] in the source are the same
    character, the ASCII apostrophe. *)
Definition normalize_uroman (R : Runtime) (text : str) : str :=
  let text := lower R text in
  let text := replace APOSTROPHE [APOSTROPHE] text in
  let text := sub_other text in
  let text := sub_newlines false text in
  let text := sub_spaces false text in
  strip text.

(** [strip_parens]. *)
Definition strip_parens (text : str) : str :=
  replace RPAREN [] (replace LPAREN [] text).

(** ** AUTO_SPLIT_RE *)

Definition ascii_upper (c : char) : char :=
  if (97 <=? c) && (c <=? 122) then c - 32 else c.

(** The characters a character is compared as under [(?i)].  An ASCII
    character has its two ASCII cases (its variants beyond ASCII are in no
    class of the pattern); the variants of any other character come from
    the [regex] module's tables. *)
Definition all_cases (R : Runtime) (c : char) : list char :=
  if is_ascii c then [c; ascii_lower c; ascii_upper c]
  else c :: regex_all_cases R c.

(** [c] matches the class [[set]] under [(?i)]. *)
Definition in_class (R : Runtime) (set : string) (c : char) : bool :=
  existsb (fun v => existsb (N.eqb v) (py set)) (all_cases R c).

(** [[[:alnum:]]]. *)
Definition alnum (R : Runtime) (c : char) : bool :=
  if is_ascii c
  then ((48 <=? c) && (c <=? 57)) || ((65 <=? c) && (c <=? 90))
       || ((97 <=? c) && (c <=? 122))
  else regex_alnum R c.

(** A lookbehind needs a character before the position. *)
Definition lookbehind (p : char -> bool) (prev : option char) : bool :=
  match prev with Some b => p b | None => false end.

(** Whether [AUTO_SPLIT_RE] matches (the empty string) between [prev] and
    [next]: the five alternatives of the pattern, in its order.  Every
    alternative ends in a lookahead, so there is no match at the end of
    the word. *)
Definition AUTO_SPLIT_RE (R : Runtime) (prev : option char) (next : char)
  : bool :=
  (lookbehind (fun b => negb (in_class R "sc" b)) prev
   && in_class R "h" next)
  || (lookbehind (fun b => negb (in_class R "kstnhfmrwpbdgzcj" b)) prev
      && in_class R "y" next)
  || (lookbehind (fun b => negb (in_class R "t" b)) prev
      && in_class R "s" next)
  || in_class R "ktnfmrwpbdgzcj" next
  || (lookbehind (fun b => in_class R "aeiou" b || negb (alnum R b)) prev
      && in_class R "aeiou" next).

(** [AUTO_SPLIT_RE.subn("#@", word)[0]]: the marker is written at every
    position where the pattern matches. *)
Fixpoint subn_marker (R : Runtime) (prev : option char) (word : str) : str :=
  match word with
  | [] => []
  | c :: word' =>
      (if AUTO_SPLIT_RE R prev c then [HASH; AT] else [])
      ++ c :: subn_marker R (Some c) word'
  end.

(** [re.split("#@", s)]: the pieces between the occurrences of the marker,
    found from the left; the empty pieces are kept. *)
Fixpoint split_marker (cur : str) (s : str) : list str :=
  match s with
  | [] => [rev cur]
  | c :: s' =>
      match s' with
      | d :: s'' =>
          if (c =? HASH) && (d =? AT) then rev cur :: split_marker [] s''
          else split_marker (c :: cur) s'
      | [] => split_marker (c :: cur) s'
      end
  end.

(** ** The custom English dictionary *)

Definition _CUSTOM_ENGLISH_SYLLABLES : list (str * list str) :=
  map (fun e => (py (fst e), map py (snd e)))
  [ ("singing", ["sing"; "ing"]);
    ("melody", ["mel"; "o"; "dy"]);
    ("karaoke", ["kar"; "a"; "o"; "ke"]);
    ("rhythm", ["rhythm"]);
    ("tonight", ["to"; "night"]);
    ("everyday", ["ev"; "ry"; "day"]);
    ("someday", ["some"; "day"]);
    ("sunday", ["sun"; "day"]);
    ("monday", ["mon"; "day"]);
    ("tuesday", ["tues"; "day"]);
    ("wednesday", ["wednes"; "day"]);
    ("thursday", ["thurs"; "day"]);
    ("friday", ["fri"; "day"]);
    ("saturday", ["sat"; "ur"; "day"]);
    ("gonna", ["gon"; "na"]);
    ("wanna", ["wan"; "na"]);
    ("gotta", ["got"; "ta"]);
    ("kinda", ["kin"; "da"]);
    ("sorta", ["sor"; "ta"]);
    ("outta", ["out"; "ta"]);
    ("coulda", ["could"; "a"]);
    ("shoulda", ["should"; "a"]);
    ("woulda", ["would"; "a"]);
    ("loving", ["lov"; "ing"]);
    ("feeling", ["feel"; "ing"]);
    ("dreaming", ["dream"; "ing"]);
    ("hoping", ["hop"; "ing"]);
    ("baby", ["ba"; "by"]);
    ("maybe", ["may"; "be"]);
    ("crazy", ["cra"; "zy"]);
    ("lady", ["la"; "dy"]);
    ("lately", ["late"; "ly"]);
    ("lonely", ["lone"; "ly"]);
    ("only", ["on"; "ly"]);
    ("really", ["re"; "al"; "ly"]);
    ("yeah", ["yeah"]);
    ("whoa", ["whoa"]);
    ("woah", ["woah"]) ]%string.

(** [d[word]] when [word in d], for a dictionary written as its items. *)
Fixpoint dict_get (word : str) (d : list (str * list str))
  : option (list str) :=
  match d with
  | [] => None
  | (k, v) :: d' => if str_eqb word k then Some v else dict_get word d'
  end.

(** ** split_english and auto_split *)

Definition split_english (R : Runtime) (word : str) : list str :=
  match dict_get word _CUSTOM_ENGLISH_SYLLABLES with
  | Some syllables => syllables
  | None =>
      let result := pyphen_inserted R word in
      if truthy result then split_on BAR [] result else [word]
  end.

(** The language is whatever string the caller passes: the annotation
    [Literal["ja", "en"]] is not checked when the program runs. *)
Definition auto_split (R : Runtime) (word : str) (language : str) : list str :=
  if str_eqb language (py "en") then split_english R word
  else
    let splitter_str := subn_marker R None word in
    let syllables := split_marker [] splitter_str in
    filter truthy syllables.

(** ** The classes *)

(** [_Text]: what has a [raw] string (and, in the three subclasses, a
    [language]). *)
Class _Text (T : Type) := { raw : T -> str; language : T -> str }.

(** The fields of the three dataclasses; the default ["ja"] of [language]
    is the constructor's. *)
Record Lyrics := { Lyrics_raw : str; Lyrics_language : str }.
Record Line := { Line_raw : str; Line_language : str }.
Record Word := { Word_raw : str; Word_language : str }.

#[export] Instance Lyrics_Text : _Text Lyrics :=
  {| raw := Lyrics_raw; language := Lyrics_language |}.
#[export] Instance Line_Text : _Text Line :=
  {| raw := Line_raw; language := Line_language |}.
#[export] Instance Word_Text : _Text Word :=
  {| raw := Word_raw; language := Word_language |}.

Definition normalized {T} `{_Text T} (R : Runtime) (self : T) : str :=
  normalize_uroman R (raw self).

Definition transcript {T} `{_Text T} (R : Runtime) (self : T) : list str :=
  split (normalized R self).

Definition transcript_for_alignment {T} `{_Text T} (R : Runtime) (self : T)
  : list str :=
  split (strip_parens (normalized R self)).

Definition lines (self : Lyrics) : list Line :=
  map (fun line => {| Line_raw := line; Line_language := language self |})
      (filter truthy (splitlines (raw self))).

Definition words (R : Runtime) (self : Line) : list Word :=
  map (fun word => {| Word_raw := word; Word_language := language self |})
      (filter truthy (transcript R self)).

Definition syllables (R : Runtime) (self : Word) : list str :=
  auto_split R (normalized R self) (language self).

(** ** The caller's check of the language

    [src/scripts/05_yohane_align.py], [main]: the command-line script tests
    its [--language] option before it builds the aligner, and leaves with
    exit code 1 when the option is neither ["ja"] nor ["en"]. *)

Inductive exit := Exit (code : N).

Definition validate_language (language : str) : exit + str :=
  if negb (existsb (str_eqb language) [py "ja"; py "en"])
  then inl (Exit 1)
  else inr language.

(** ** The files of the alignment script

    [src/scripts/05_yohane_align.py], [main], from its start to the checks
    of the input files: which vocals, lyrics and output files the script
    goes on with.  Messages and logging are left out.  The script leaves
    with [typer.Exit(1)] in every failing branch, and the [except Exception]
    around the detection turns anything raised there into [typer.Exit(1)]
    as well, so a call that raises is a call that ends in [Exit 1]. *)

(** What the script uses of [pathlib]. *)
Record Pathlib := {
  path : Type;
  (** [Path(text)]. *)
  Path : str -> path;
  (** [self / name]. *)
  truediv : path -> str -> path;
  (** [self.exists()]. *)
  path_exists : path -> bool
}.

(** What the script uses of the [pipeline_state] module, which is not part
    of this repository: the result of each call, [None] when it raises.
    [get_stems] returns a dictionary or nothing. *)
Record PipelineState (P : Pathlib) := {
  (** [Path(state.get_output_dir())]. *)
  get_output_dir : option (path P);
  (** [state.get_stems()]. *)
  get_stems : option (option (list (str * str)))
}.

Arguments get_output_dir {P}.
Arguments get_stems {P}.

Definition bind {A B : Type} (m : exit + A) (k : A -> exit + B) : exit + B :=
  match m with inl e => inl e | inr a => k a end.

Notation "x <- m ;; k" := (bind m (fun x => k))
  (at level 61, m at next level, right associativity).

(** A call inside the [try]: its value, or [Exit 1] when it raises. *)
Definition raising {A : Type} (call : option A) : exit + A :=
  match call with Some a => inr a | None => inl (Exit 1) end.

(** [stems.get("vocals")]. *)
Fixpoint stems_get (key : str) (stems : list (str * str)) : option str :=
  match stems with
  | [] => None
  | (k, v) :: stems' => if str_eqb key k then Some v else stems_get key stems'
  end.

Definition is_None {A : Type} (x : option A) : bool :=
  match x with None => true | Some _ => false end.

(** [pipeline_state] is the outcome of [PipelineState(_root_dir)]. *)
Definition resolve_files (P : Pathlib) (PIPELINE_STATE_AVAILABLE : bool)
  (pipeline_state : option (PipelineState P))
  (vocals_file lyrics_file output_file : option (path P))
  : exit + (path P * path P * option (path P)) :=
  files <-
    (if PIPELINE_STATE_AVAILABLE
        && (is_None vocals_file || is_None lyrics_file || is_None output_file)
     then
       state <- raising pipeline_state ;;
       output_dir <- raising (get_output_dir state) ;;
       vocals_file <-
         match vocals_file with
         | Some v => inr v
         | None =>
             let yohane_vocals :=
               truediv P (truediv P output_dir (py "stems"))
                       (py "vocals_yohane.wav") in
             if path_exists P yohane_vocals then inr yohane_vocals
             else
               stems <- raising (get_stems state) ;;
               match stems with
               | None | Some [] => inl (Exit 1)
               | Some stems =>
                   match stems_get (py "vocals") stems with
                   | None | Some [] => inl (Exit 1)
                   | Some vocals => inr (Path P vocals)
                   end
               end
         end ;;
       lyrics_file <-
         match lyrics_file with
         | Some l => inr l
         | None =>
             let lyrics_file :=
               truediv P output_dir (py "lyrics_raw_ytmusic.txt") in
             if negb (path_exists P lyrics_file) then inl (Exit 1)
             else inr lyrics_file
         end ;;
       let output_file :=
         match output_file with
         | Some o => o
         | None => truediv P output_dir (py "vocals.ass")
         end in
       inr (vocals_file, lyrics_file, Some output_file)
     else
       match vocals_file, lyrics_file with
       | Some v, Some l => inr (v, l, output_file)
       | _, _ => inl (Exit 1)
       end) ;;
  let '(vocals_file, lyrics_file, output_file) := files in
  if negb (path_exists P vocals_file) then inl (Exit 1)
  else if negb (path_exists P lyrics_file) then inl (Exit 1)
  else inr (vocals_file, lyrics_file, output_file).

(** Paths as strings joined by a slash, and a file system that holds the
    listed files: enough to run [resolve_files]. *)
Definition sample_pathlib (files : list str) : Pathlib :=
  {| path := str;
     Path := fun text => text;
     truediv := fun dir name => dir ++ py "/" ++ name;
     path_exists := fun f => existsb (str_eqb f) files |}.

(** An output directory [out] with the processed vocals and the lyrics in
    it, and a pipeline state that knows the directory and no stems. *)
Definition sample_files : Pathlib :=
  sample_pathlib [py "out/stems/vocals_yohane.wav";
                  py "out/lyrics_raw_ytmusic.txt"].

Definition sample_state : PipelineState sample_files :=
  {| get_output_dir := Some (py "out" : path sample_files);
     get_stems := None |}.

(** ** Shapes of text used in the proofs *)

(** No newline of [text] is followed by a newline or a space ([after_nl]:
    the character before [text] is a newline). *)
Fixpoint nl_clean (after_nl : bool) (text : str) : bool :=
  match text with
  | [] => true
  | c :: text' => negb (after_nl && nl_or_space c) && nl_clean (c =? LF) text'
  end.

(** No space of [text] is followed by a space. *)
Fixpoint sp_clean (after_space : bool) (text : str) : bool :=
  match text with
  | [] => true
  | c :: text' =>
      negb (after_space && (c =? SPACE)) && sp_clean (c =? SPACE) text'
  end.

(** The text a second normalisation leaves alone. *)
Record canonical (text : str) : Prop := {
  canonical_kept : Forall (fun c => kept c = true) text;
  canonical_nl : nl_clean false text = true;
  canonical_sp : sp_clean false text = true;
  canonical_lstrip : lstrip text = text;
  canonical_rstrip : rstrip text = text
}.

(** [s] has the marker ["#@"] somewhere in it. *)
Fixpoint contains_marker (s : str) : bool :=
  match s with
  | [] => false
  | c :: s' =>
      match s' with
      | d :: _ => ((c =? HASH) && (d =? AT)) || contains_marker s'
      | [] => false
      end
  end.

Definition starts_with (c : char) (s : str) : bool :=
  match s with d :: _ => d =? c | [] => false end.

Definition is_paren (c : char) : bool := (c =? LPAREN) || (c =? RPAREN).

(** The characters of normalised text that are not whitespace: the
    lowercase letters, the apostrophe and the parentheses. *)
Definition is_lyric_char (c : char) : bool :=
  ((97 <=? c) && (c <=? 122)) || (c =? APOSTROPHE) || is_paren c.

(** What the first steps of [normalize_uroman] make of a character of
    ASCII text: its lowercase form, or a space when that is not kept. *)
Definition lowered_or_blank (c : char) : char :=
  if kept (ascii_lower c) then ascii_lower c else SPACE.

Definition is_vowel (c : char) : bool := existsb (N.eqb c) (py "aeiou").

(** The lowercase letters of romanised Japanese: all but l, q, v and x,
    letters for which the pattern has no rule. *)
Definition romaji (c : char) : bool :=
  existsb (N.eqb c) (py "abcdefghijkmnoprstuwyz").

(** A runtime to run the functions on ASCII text: no Unicode tables, and a
    hyphenator that knows one word. *)
Definition sample_runtime : Runtime :=
  {| unicode_lower := fun s => s;
     regex_all_cases := fun _ => [];
     regex_alnum := fun _ => false;
     pyphen_inserted := fun word =>
       if str_eqb word (py "wonderful") then py "won|der|ful" else word |}.

(** * Properties *)

(** ** The functions at work *)

Example splitlines_crlf :
  splitlines (py "a" ++ [CR; LF] ++ py "b" ++ [LF; LF]) = [py "a"; py "b"; []].
Proof. reflexivity. Qed.

Example split_runs : split (py "  to   be " ++ [LF] ++ py "or") =
                     [py "to"; py "be"; py "or"].
Proof. reflexivity. Qed.

Example sub_newlines_run :
  sub_newlines false (py "a " ++ [LF; SPACE; LF] ++ py " b" ++ [LF] ++ py "c")
  = py "a " ++ [LF] ++ py "b" ++ [LF] ++ py "c".
Proof. reflexivity. Qed.

Example auto_split_shinjitsu (R : Runtime) :
  auto_split R (py "shinjitsu") (py "ja") = [py "shi"; py "n"; py "ji"; py "tsu"].
Proof. reflexivity. Qed.

Example auto_split_wonderful :
  auto_split sample_runtime (py "wonderful") (py "en")
  = [py "won"; py "der"; py "ful"].
Proof. reflexivity. Qed.

(** ** Strings *)

Lemma str_eqb_eq (a b : str) : str_eqb a b = true <-> a = b.
Proof.
  unfold str_eqb. destruct (list_eq_dec N.eq_dec a b); split; congruence.
Qed.

Lemma truthy_nonempty (s : str) : truthy s = true <-> s <> [].
Proof. destruct s; simpl; split; congruence. Qed.

Lemma lstrip_suffix (s : str) : exists u, s = u ++ lstrip s.
Proof.
  induction s as [|c s [u IH]]; simpl.
  - now exists [].
  - destruct (isspace c).
    + exists (c :: u). simpl. now f_equal.
    + now exists [].
Qed.

Lemma rstrip_prefix (s : str) : exists u, s = rstrip s ++ u.
Proof.
  unfold rstrip. destruct (lstrip_suffix (rev s)) as [u Hu].
  exists (rev u). rewrite <- rev_app_distr, <- Hu. now rewrite rev_involutive.
Qed.

Lemma lstrip_fixed (s : str) :
  lstrip s = s <-> match s with [] => True | c :: _ => isspace c = false end.
Proof.
  destruct s as [|c s]; simpl; [tauto|].
  destruct (isspace c) eqn:E; split; try congruence; intros H.
  exfalso. destruct (lstrip_suffix s) as [u Hu].
  apply (f_equal (@List.length _)) in H. rewrite Hu in H at 2.
  simpl in H. rewrite length_app in H. lia.
Qed.

Lemma lstrip_idem (s : str) : lstrip (lstrip s) = lstrip s.
Proof.
  induction s as [|c s IH]; simpl; trivial.
  destruct (isspace c) eqn:E; trivial. simpl. now rewrite E.
Qed.

Lemma rstrip_idem (s : str) : rstrip (rstrip s) = rstrip s.
Proof. unfold rstrip. now rewrite rev_involutive, lstrip_idem. Qed.

Lemma lstrip_rstrip (s : str) : lstrip s = s -> lstrip (rstrip s) = rstrip s.
Proof.
  intros H. apply lstrip_fixed. apply lstrip_fixed in H.
  destruct (rstrip_prefix s) as [u Hu].
  destruct (rstrip s) as [|c r]; trivial.
  rewrite Hu in H. exact H.
Qed.

Lemma Forall_lstrip (P : char -> Prop) (s : str) :
  Forall P s -> Forall P (lstrip s).
Proof.
  intros H. destruct (lstrip_suffix s) as [u Hu]. rewrite Hu in H.
  now apply Forall_app in H.
Qed.

Lemma Forall_strip (P : char -> Prop) (s : str) :
  Forall P s -> Forall P (strip s).
Proof.
  intros H. unfold strip, rstrip.
  apply Forall_rev, Forall_lstrip, Forall_rev, Forall_lstrip, H.
Qed.

Lemma replace_same (c : char) (text : str) : replace c [c] text = text.
Proof.
  unfold replace. induction text as [|d text IH]; simpl; trivial.
  rewrite IH. destruct (N.eqb_spec d c); subst; reflexivity.
Qed.

(** ** The substitutions of normalize_uroman *)

Lemma kept_sub_other (text : str) :
  Forall (fun c => kept c = true) (sub_other text).
Proof.
  unfold sub_other. apply Forall_map, Forall_forall. intros c _.
  destruct (kept c) eqn:E; [exact E | reflexivity].
Qed.

Lemma Forall_sub_newlines (P : char -> Prop) (text : str) :
  Forall P text -> forall b, Forall P (sub_newlines b text).
Proof.
  induction 1 as [|c text Hc _ IH]; intros b; simpl; [constructor|].
  destruct (b && nl_or_space c); [apply IH | constructor; [exact Hc | apply IH]].
Qed.

Lemma Forall_sub_spaces (P : char -> Prop) (text : str) :
  Forall P text -> forall b, Forall P (sub_spaces b text).
Proof.
  induction 1 as [|c text Hc _ IH]; intros b; simpl; [constructor|].
  destruct (c =? SPACE); [destruct b|];
    try apply IH; constructor; try exact Hc; apply IH.
Qed.

Lemma kept_normalize_uroman (R : Runtime) (text : str) :
  Forall (fun c => kept c = true) (normalize_uroman R text).
Proof.
  unfold normalize_uroman.
  apply Forall_strip, Forall_sub_spaces, Forall_sub_newlines, kept_sub_other.
Qed.

Lemma nl_clean_weaken (b : bool) (text : str) :
  nl_clean b text = true -> nl_clean false text = true.
Proof.
  destruct text as [|c text]; simpl; trivial.
  intros H. apply andb_true_iff in H. tauto.
Qed.

Lemma nl_clean_tail (b : bool) (c : char) (text : str) :
  nl_clean b (c :: text) = true -> nl_clean false text = true.
Proof.
  simpl. intros H. apply andb_true_iff in H.
  apply (nl_clean_weaken (c =? LF)), H.
Qed.

Lemma nl_clean_suffix (u text : str) (b : bool) :
  nl_clean b (u ++ text) = true -> nl_clean false text = true.
Proof.
  revert b. induction u as [|c u IH]; intros b H; simpl in H.
  - now apply nl_clean_weaken in H.
  - apply andb_true_iff in H. apply (IH (c =? LF)), H.
Qed.

Lemma nl_clean_prefix (text u : str) (b : bool) :
  nl_clean b (text ++ u) = true -> nl_clean b text = true.
Proof.
  revert b. induction text as [|c text IH]; intros b H; simpl in *; trivial.
  apply andb_true_iff in H. apply andb_true_iff. split; [tauto|].
  apply IH, H.
Qed.

Lemma sp_clean_weaken (b : bool) (text : str) :
  sp_clean b text = true -> sp_clean false text = true.
Proof.
  destruct text as [|c text]; simpl; trivial.
  intros H. apply andb_true_iff in H. tauto.
Qed.

Lemma sp_clean_suffix (u text : str) (b : bool) :
  sp_clean b (u ++ text) = true -> sp_clean false text = true.
Proof.
  revert b. induction u as [|c u IH]; intros b H; simpl in H.
  - now apply sp_clean_weaken in H.
  - apply andb_true_iff in H. apply (IH (c =? SPACE)), H.
Qed.

Lemma sp_clean_prefix (text u : str) (b : bool) :
  sp_clean b (text ++ u) = true -> sp_clean b text = true.
Proof.
  revert b. induction text as [|c text IH]; intros b H; simpl in *; trivial.
  apply andb_true_iff in H. apply andb_true_iff. split; [tauto|].
  apply IH, H.
Qed.

(** The output of each substitution has nothing left for it to replace. *)
Lemma nl_clean_sub_newlines (text : str) (b : bool) :
  nl_clean b (sub_newlines b text) = true.
Proof.
  revert b. induction text as [|c text IH]; intros b; simpl; trivial.
  destruct (b && nl_or_space c) eqn:E.
  - apply andb_true_iff in E. destruct E as [-> _]. apply IH.
  - simpl. rewrite E. simpl. apply IH.
Qed.

Lemma sp_clean_sub_spaces (text : str) (b : bool) :
  sp_clean b (sub_spaces b text) = true.
Proof.
  revert b. induction text as [|c text IH]; intros b; simpl; trivial.
  destruct (c =? SPACE) eqn:E.
  - destruct b; [apply IH|]. simpl. rewrite E. apply IH.
  - simpl. rewrite E, andb_false_r. apply IH.
Qed.

(** Collapsing spaces puts no space and no newline behind a newline. *)
Lemma nl_clean_sub_spaces (text : str) (b b' : bool) :
  nl_clean b text = true -> nl_clean b (sub_spaces b' text) = true.
Proof.
  revert b b'. induction text as [|c text IH]; intros b b' H; simpl; trivial.
  simpl in H. apply andb_true_iff in H. destruct H as [H1 H2].
  destruct (c =? SPACE) eqn:E.
  - apply N.eqb_eq in E. subst c. change (SPACE =? LF) with false in H2.
    destruct b'.
    + destruct b; [discriminate H1|]. now apply IH.
    + simpl. rewrite H1. now apply IH.
  - simpl. rewrite H1. now apply IH.
Qed.

(** On text of that shape a substitution changes nothing. *)
Lemma sub_newlines_fixed (text : str) (b : bool) :
  nl_clean b text = true -> sub_newlines b text = text.
Proof.
  revert b. induction text as [|c text IH]; intros b H; simpl; trivial.
  simpl in H. apply andb_true_iff in H. destruct H as [H1 H2].
  apply negb_true_iff in H1. rewrite H1. f_equal. now apply IH.
Qed.

Lemma sub_spaces_fixed (text : str) (b : bool) :
  sp_clean b text = true -> sub_spaces b text = text.
Proof.
  revert b. induction text as [|c text IH]; intros b H; simpl; trivial.
  simpl in H. apply andb_true_iff in H. destruct H as [H1 H2].
  apply negb_true_iff in H1.
  destruct (c =? SPACE) eqn:E.
  - rewrite andb_true_r in H1. subst b. f_equal. now apply IH.
  - f_equal. now apply IH.
Qed.

Lemma kept_ascii_lower (c : char) :
  kept c = true -> is_ascii c = true /\ ascii_lower c = c.
Proof.
  unfold kept, is_ascii, ascii_lower, APOSTROPHE, LF, SPACE, LPAREN, RPAREN.
  intros H.
  repeat (apply orb_true_iff in H; destruct H as [H|H]);
    try (apply andb_true_iff in H; destruct H as [H H']; apply N.leb_le in H, H');
    try apply N.eqb_eq in H; (split; [apply N.ltb_lt; lia|]);
    destruct (N.leb_spec 65 c), (N.leb_spec c 90); simpl; lia.
Qed.

Lemma lower_fixed (R : Runtime) (text : str) :
  Forall (fun c => kept c = true) text -> lower R text = text.
Proof.
  intros H. unfold lower.
  assert (A : forallb is_ascii text = true).
  { apply forallb_forall. intros c Hc.
    rewrite Forall_forall in H. now apply kept_ascii_lower, H. }
  rewrite A. rewrite <- (map_id text) at 2. apply map_ext_in.
  intros c Hc. rewrite Forall_forall in H. now apply kept_ascii_lower, H.
Qed.

Lemma sub_other_fixed (text : str) :
  Forall (fun c => kept c = true) text -> sub_other text = text.
Proof.
  intros H. unfold sub_other. rewrite <- (map_id text) at 2.
  apply map_ext_in. intros c Hc. rewrite Forall_forall in H.
  now rewrite (H c Hc).
Qed.

Lemma canonical_normalize_uroman (R : Runtime) (text : str) :
  canonical (normalize_uroman R text).
Proof.
  pose proof (kept_normalize_uroman R text) as K.
  unfold normalize_uroman in *.
  set (t := sub_newlines false _) in *.
  assert (N1 : nl_clean false (sub_spaces false t) = true)
    by apply nl_clean_sub_spaces, nl_clean_sub_newlines.
  assert (S1 : sp_clean false (sub_spaces false t) = true)
    by apply sp_clean_sub_spaces.
  set (u := sub_spaces false t) in *.
  destruct (lstrip_suffix u) as [a Ha].
  destruct (rstrip_prefix (lstrip u)) as [b Hb].
  split; trivial.
  - rewrite Ha in N1. apply nl_clean_suffix in N1. rewrite Hb in N1.
    now apply nl_clean_prefix in N1.
  - rewrite Ha in S1. apply sp_clean_suffix in S1. rewrite Hb in S1.
    now apply sp_clean_prefix in S1.
  - unfold strip. apply lstrip_rstrip, lstrip_idem.
  - unfold strip. apply rstrip_idem.
Qed.

Lemma normalize_uroman_canonical (R : Runtime) (text : str) :
  canonical text -> normalize_uroman R text = text.
Proof.
  intros [K N1 S1 L1 R1]. unfold normalize_uroman.
  rewrite (lower_fixed R text K), replace_same, (sub_other_fixed text K).
  rewrite (sub_newlines_fixed text false N1), (sub_spaces_fixed text false S1).
  unfold strip. now rewrite L1.
Qed.

(** ** Tokens *)

Lemma Forall_split_ws (P : char -> Prop) (s cur : str) :
  Forall P cur -> Forall P s -> Forall (Forall P) (split_ws cur s).
Proof.
  revert cur. induction s as [|c s IH]; intros cur Hcur Hs; simpl.
  - destruct (truthy cur); repeat constructor. now apply Forall_rev.
  - inversion Hs; subst.
    destruct (isspace c); [destruct (truthy cur)|].
    + constructor; [now apply Forall_rev | now apply IH].
    + now apply IH.
    + apply IH; [now constructor | assumption].
Qed.

Lemma split_ws_nonempty (s cur : str) :
  Forall (fun token => token <> []) (split_ws cur s).
Proof.
  revert cur. induction s as [|c s IH]; intros cur; simpl.
  - destruct cur as [|d cur]; simpl; repeat constructor.
    intros H. apply (f_equal (@List.length _)) in H.
    rewrite length_app in H. simpl in H. lia.
  - destruct (isspace c); [destruct cur as [|d cur]; simpl|]; try apply IH.
    constructor; [|apply IH].
    intros H. apply (f_equal (@List.length _)) in H.
    rewrite length_app in H. simpl in H. lia.
Qed.

Lemma split_ws_spaces (s : str) :
  Forall (fun c => isspace c = true) s -> split_ws [] s = [].
Proof.
  induction 1 as [|c s Hc _ IH]; simpl; trivial. now rewrite Hc.
Qed.

Lemma Forall_replace_nil (P : char -> Prop) (old : char) (text : str) :
  Forall P text -> Forall P (replace old [] text).
Proof.
  unfold replace. induction 1 as [|c text Hc _ IH]; simpl; [constructor|].
  destruct (c =? old); simpl; [assumption | now constructor].
Qed.

Lemma replace_nil_absent (old : char) (text : str) :
  Forall (fun c => c <> old) (replace old [] text).
Proof.
  unfold replace. induction text as [|c text IH]; simpl; [constructor|].
  destruct (N.eqb_spec c old); simpl; [assumption | now constructor].
Qed.

Lemma strip_parens_no_paren (text : str) :
  Forall (fun c => is_paren c = false) (strip_parens text).
Proof.
  unfold strip_parens.
  pose proof (replace_nil_absent RPAREN (replace LPAREN [] text)) as HR.
  pose proof (Forall_replace_nil _ RPAREN _ (replace_nil_absent LPAREN text))
    as HL.
  rewrite Forall_forall in *. intros c Hc.
  specialize (HR c Hc). specialize (HL c Hc). simpl in HL.
  unfold is_paren. apply orb_false_iff.
  split; apply N.eqb_neq; assumption.
Qed.

(** ** The marker of the Japanese splitter *)

Lemma concat_filter_truthy (l : list str) : concat (filter truthy l) = concat l.
Proof.
  induction l as [|s l IH]; simpl; trivial.
  destruct s; simpl; [exact IH | now rewrite IH].
Qed.

Lemma split_marker_at_marker (cur s : str) :
  split_marker cur (HASH :: AT :: s) = rev cur :: split_marker [] s.
Proof. reflexivity. Qed.

Lemma split_marker_step (cur : str) (c : char) (s : str) :
  (c =? HASH) && starts_with AT s = false ->
  split_marker cur (c :: s) = split_marker (c :: cur) s.
Proof.
  destruct s as [|d s]; simpl; trivial. intros ->. reflexivity.
Qed.

Lemma starts_with_AT_subn_marker (R : Runtime) (prev : option char) (w : str)
  (c : char) :
  (c =? HASH) && starts_with AT w = false ->
  (c =? HASH) && starts_with AT (subn_marker R prev w) = false.
Proof.
  destruct (c =? HASH); trivial.
  destruct w as [|d w]; simpl; trivial.
  destruct (AUTO_SPLIT_RE R prev d); trivial.
Qed.

Lemma contains_marker_cons (c : char) (s : str) :
  contains_marker (c :: s) = false ->
  (c =? HASH) && starts_with AT s = false /\ contains_marker s = false.
Proof.
  destruct s as [|d s]; [simpl; rewrite andb_false_r; tauto|].
  change (contains_marker (c :: d :: s))
    with (((c =? HASH) && (d =? AT)) || contains_marker (d :: s)).
  intros H. apply orb_false_iff in H. exact H.
Qed.

Lemma concat_split_subn_marker (R : Runtime) (w : str) :
  contains_marker w = false ->
  forall prev cur,
    concat (split_marker cur (subn_marker R prev w)) = rev cur ++ w.
Proof.
  induction w as [|c w IH]; intros Hw prev cur.
  - simpl. now rewrite app_nil_r.
  - apply contains_marker_cons in Hw. destruct Hw as [Hc Hw].
    assert (step : forall cur',
      concat (split_marker cur' (c :: subn_marker R (Some c) w))
      = rev cur' ++ c :: w).
    { intros cur'. rewrite split_marker_step
        by (now apply starts_with_AT_subn_marker).
      rewrite (IH Hw). simpl. now rewrite <- app_assoc. }
    simpl. destruct (AUTO_SPLIT_RE R prev c); simpl app.
    + rewrite split_marker_at_marker.
      change (concat (rev cur :: ?l)) with (rev cur ++ concat l).
      now rewrite step.
    + apply step.
Qed.

Lemma concat_split_on (sep : char) (s cur : str) :
  concat (split_on sep cur s) = rev cur ++ replace sep [] s.
Proof.
  revert cur. induction s as [|c s IH]; intros cur; simpl.
  - reflexivity.
  - destruct (c =? sep); simpl.
    + now rewrite IH.
    + rewrite IH. simpl. now rewrite <- app_assoc.
Qed.

(** ** The dictionary *)

Lemma dict_get_In (word : str) (d : list (str * list str)) (v : list str) :
  dict_get word d = Some v -> In (word, v) d.
Proof.
  induction d as [|[k v'] d IH]; simpl; [discriminate|].
  destruct (str_eqb word k) eqn:E.
  - apply str_eqb_eq in E. intros [= ->]. left. now subst.
  - intros H. right. now apply IH.
Qed.

Lemma custom_entries_concat :
  Forall (fun e => fst e = py "everyday" \/ concat (snd e) = fst e)
         _CUSTOM_ENGLISH_SYLLABLES.
Proof.
  assert (H : forallb (fun e => str_eqb (fst e) (py "everyday")
                                || str_eqb (concat (snd e)) (fst e))
                      _CUSTOM_ENGLISH_SYLLABLES = true)
    by (vm_compute; reflexivity).
  rewrite forallb_forall in H. apply Forall_forall. intros e He.
  specialize (H e He). apply orb_true_iff in H.
  destruct H as [H|H]; apply str_eqb_eq in H; tauto.
Qed.

Lemma lstrip_spaces (s : str) :
  Forall (fun c => isspace c = true) s -> lstrip s = [].
Proof. induction 1 as [|c s Hc _ IH]; simpl; trivial. now rewrite Hc. Qed.

Lemma not_lyric_char_blank (c : char) :
  is_lyric_char c = false -> isspace (if kept c then c else SPACE) = true.
Proof.
  destruct (kept c) eqn:K; [|reflexivity]. revert K.
  unfold is_lyric_char, is_paren, kept, isspace,
    APOSTROPHE, LPAREN, RPAREN, LF, SPACE.
  rewrite !orb_true_iff, !orb_false_iff, !andb_true_iff, !andb_false_iff,
    !N.eqb_eq, !N.eqb_neq, !N.leb_le, !N.leb_gt.
  lia.
Qed.

(** Text whose lowercase form has no letter, apostrophe or parenthesis is
    normalised to the empty string. *)
Lemma normalize_uroman_blank (R : Runtime) (text : str) :
  Forall (fun c => is_lyric_char c = false) (lower R text) ->
  normalize_uroman R text = [].
Proof.
  intros H. unfold normalize_uroman. rewrite replace_same.
  assert (S : Forall (fun c => isspace c = true) (sub_other (lower R text))).
  { unfold sub_other. apply Forall_map. revert H. apply Forall_impl.
    intros c Hc. now apply not_lyric_char_blank. }
  apply (Forall_sub_newlines _ _) with (b := false) in S.
  apply (Forall_sub_spaces _ _) with (b := false) in S.
  unfold strip. now rewrite (lstrip_spaces _ S).
Qed.

(** ** The statements of the specification *)

(** C2, as amended.  The module checks no language: a selector that is
    neither ["ja"] nor ["en"] is split as Japanese; it is the calling
    script that turns such a selector down, with exit code 1. *)
Theorem unknown_language_is_japanese (R : Runtime) (word language : str) :
  language <> py "ja" -> language <> py "en" ->
  auto_split R word language = auto_split R word (py "ja")
  /\ validate_language language = inl (Exit 1).
Proof.
  intros Hja Hen.
  assert (Ej : str_eqb language (py "ja") = false).
  { destruct (str_eqb language (py "ja")) eqn:E; trivial.
    now apply str_eqb_eq in E. }
  assert (Ee : str_eqb language (py "en") = false).
  { destruct (str_eqb language (py "en")) eqn:E; trivial.
    now apply str_eqb_eq in E. }
  split.
  - unfold auto_split. now rewrite Ee.
  - unfold validate_language. simpl existsb. now rewrite Ej, Ee.
Qed.

(** C3, as amended.  [normalize("Hello,  World!\n\n(oohh)")] is
    ["hello world \n(oohh)"]: the space written for ["!"] stands before
    the newline and stays there. *)
Theorem normalize_uroman_hello (R : Runtime) :
  normalize_uroman R (py "Hello,  World!" ++ [LF; LF] ++ py "(oohh)")
  = py "hello world " ++ [LF] ++ py "(oohh)".
Proof. reflexivity. Qed.

(** C4.  Normalising normalised text gives the same text. *)
Theorem normalize_uroman_idempotent (R : Runtime) (s : str) :
  normalize_uroman R (normalize_uroman R s) = normalize_uroman R s.
Proof. apply normalize_uroman_canonical, canonical_normalize_uroman. Qed.

(** C5.  Every character of normalised text is a lowercase ASCII letter,
    the apostrophe, the space, the newline or a parenthesis. *)
Theorem normalize_uroman_charset (R : Runtime) (s : str) :
  Forall (fun c => 97 <= c <= 122 \/ c = APOSTROPHE \/ c = SPACE
                   \/ c = LF \/ c = LPAREN \/ c = RPAREN)
         (normalize_uroman R s).
Proof.
  generalize (kept_normalize_uroman R s). apply Forall_impl.
  intros c H. unfold kept in H.
  repeat (apply orb_true_iff in H; destruct H as [H|H]);
    try (apply N.eqb_eq in H; tauto).
  apply andb_true_iff in H. destruct H as [H1 H2].
  apply N.leb_le in H1, H2. tauto.
Qed.

(** C6.  No token of [transcript_for_alignment] has a parenthesis in it,
    whatever the text unit; a token of [transcript] can have one. *)
Theorem transcript_for_alignment_no_paren :
  (forall (R : Runtime) (T : Type) (text : _Text T) (self : T),
      Forall (fun token => ~ In LPAREN token /\ ~ In RPAREN token)
             (transcript_for_alignment R self))
  /\ (forall R : Runtime,
         transcript R {| Word_raw := py "(oohh)"; Word_language := py "en" |}
         = [py "(oohh)"]).
Proof.
  split; [|reflexivity].
  intros R T text self. unfold transcript_for_alignment, split.
  generalize (Forall_split_ws _ _ [] (Forall_nil _)
                (strip_parens_no_paren (normalized R self))).
  apply Forall_impl. intros token H. rewrite Forall_forall in H.
  split; intros Hin; apply H in Hin; discriminate Hin.
Qed.

(** C7.  The Japanese splitter turns ["kyou"] into ["kyo"], ["u"]: the
    pattern does not match between ["k"] and ["y"] nor between ["y"] and
    ["o"], and it matches between ["o"] and ["u"]; its match before the
    first letter gives an empty piece, which is dropped. *)
Theorem auto_split_kyou (R : Runtime) :
  auto_split R (py "kyou") (py "ja") = [py "kyo"; py "u"]
  /\ AUTO_SPLIT_RE R None (chr "k") = true
  /\ AUTO_SPLIT_RE R (Some (chr "k")) (chr "y") = false
  /\ AUTO_SPLIT_RE R (Some (chr "y")) (chr "o") = false
  /\ AUTO_SPLIT_RE R (Some (chr "o")) (chr "u") = true.
Proof. repeat split. Qed.

(** C8.  A word of the custom dictionary is split as the dictionary says,
    whatever the hyphenator would answer; ["gonna"] gives ["gon"],
    ["na"]. *)
Theorem split_english_custom_first :
  (forall (R : Runtime) (word : str) (entry : list str),
      dict_get word _CUSTOM_ENGLISH_SYLLABLES = Some entry ->
      auto_split R word (py "en") = entry)
  /\ (forall R : Runtime,
         auto_split R (py "gonna") (py "en") = [py "gon"; py "na"]).
Proof.
  split; [|reflexivity].
  intros R word entry H.
  change (auto_split R word (py "en")) with (split_english R word).
  unfold split_english. now rewrite H.
Qed.

(** C9.  The raw text of a line of a [Lyrics] and of a word of a [Line] is
    never empty; [Lyrics("Line one\n\nLine two", language="en")] has two
    lines of two words each. *)
Theorem lines_words_nonempty (R : Runtime) :
  (forall self : Lyrics, Forall (fun line => raw line <> []) (lines self))
  /\ (forall self : Line, Forall (fun word => raw word <> []) (words R self))
  /\ map (fun line => List.length (words R line))
         (lines {| Lyrics_raw := py "Line one" ++ [LF; LF] ++ py "Line two";
                   Lyrics_language := py "en" |})
     = [2%nat; 2%nat].
Proof.
  repeat split.
  - intros self. unfold lines. apply Forall_map, Forall_forall.
    intros line H. apply filter_In in H. simpl. now apply truthy_nonempty.
  - intros self. unfold words. apply Forall_map, Forall_forall.
    intros word H. apply filter_In in H. simpl. now apply truthy_nonempty.
Qed.

(** C10.  A line of the raw text that is not empty and is made only of
    characters that normalisation takes away (once the line is lowercased,
    none of its characters is a lowercase letter, an apostrophe or a
    parenthesis: digits, punctuation, spaces, signs and letters beyond
    ASCII) is a [Line] of the [Lyrics], and that [Line] has no words. *)
Theorem dropped_line_has_no_words (R : Runtime) (self : Lyrics) (r : str) :
  In r (splitlines (raw self)) ->
  r <> [] ->
  Forall (fun c => is_lyric_char c = false) (lower R r) ->
  In {| Line_raw := r; Line_language := language self |} (lines self)
  /\ words R {| Line_raw := r; Line_language := language self |} = [].
Proof.
  intros Hin Hne Hd. split.
  - unfold lines.
    apply (in_map (fun line => {| Line_raw := line;
                                  Line_language := language self |})).
    apply filter_In. split; [exact Hin | now apply truthy_nonempty].
  - unfold words, transcript, normalized. simpl raw.
    now rewrite (normalize_uroman_blank R r Hd).
Qed.

(** ** Instances and refutations *)

Lemma unknown_language_is_japanese_witness :
  auto_split sample_runtime (py "kyou") (py "fr")
  = auto_split sample_runtime (py "kyou") (py "ja")
  /\ validate_language (py "fr") = inl (Exit 1).
Proof.
  apply (unknown_language_is_japanese sample_runtime (py "kyou") (py "fr"));
    discriminate.
Defined.

(** C2 as it is written fails: with the selector ["fr"] the module raises
    nothing and returns the Japanese split. *)
Lemma auto_split_unknown_language_returns :
  auto_split sample_runtime (py "kyou") (py "fr") = [py "kyo"; py "u"]
  /\ syllables sample_runtime
       {| Word_raw := py "kyou"; Word_language := py "fr" |}
     = [py "kyo"; py "u"].
Proof. split; reflexivity. Qed.

(** C3 as it is written fails: the result is not ["hello world\n(oohh)"]. *)
Lemma normalize_uroman_hello_differs :
  normalize_uroman sample_runtime
    (py "Hello,  World!" ++ [LF; LF] ++ py "(oohh)")
  <> py "hello world" ++ [LF] ++ py "(oohh)".
Proof. discriminate. Qed.

Lemma split_english_custom_first_witness :
  auto_split sample_runtime (py "tonight") (py "en") = [py "to"; py "night"].
Proof.
  apply (proj1 split_english_custom_first sample_runtime (py "tonight")).
  reflexivity.
Defined.

Lemma dropped_line_has_no_words_witness :
  In {| Line_raw := py "12 " ++ [9834; 12354]; Line_language := py "en" |}
     (lines {| Lyrics_raw := py "12 " ++ [9834; 12354; LF] ++ py "abc";
               Lyrics_language := py "en" |})
  /\ words sample_runtime
       {| Line_raw := py "12 " ++ [9834; 12354]; Line_language := py "en" |}
     = [].
Proof.
  apply (dropped_line_has_no_words sample_runtime
           {| Lyrics_raw := py "12 " ++ [9834; 12354; LF] ++ py "abc";
              Lyrics_language := py "en" |} (py "12 " ++ [9834; 12354])).
  - left. reflexivity.
  - discriminate.
  - repeat constructor.
Defined.

(** * Further properties *)

(** ** The shape of normalised text *)

Lemma sp_clean_double_space (a b : str) (f : bool) :
  sp_clean f (a ++ [SPACE; SPACE] ++ b) = false.
Proof.
  revert f. induction a as [|c a IH]; intros f; simpl.
  - now rewrite andb_false_r.
  - rewrite IH. apply andb_false_r.
Qed.

Lemma nl_clean_after_newline (a b : str) (c : char) (f : bool) :
  nl_or_space c = true -> nl_clean f (a ++ [LF; c] ++ b) = false.
Proof.
  intros Hc. revert f. induction a as [|d a IH]; intros f; simpl.
  - rewrite Hc. simpl. apply andb_false_r.
  - rewrite IH. apply andb_false_r.
Qed.

(** X1.  Normalised text has no whitespace at its two ends, no two spaces
    in a row, and no newline followed by a newline or by a space. *)
Theorem normalize_uroman_shape (R : Runtime) (s : str) :
  match normalize_uroman R s with [] => True | c :: _ => isspace c = false end
  /\ match rev (normalize_uroman R s) with
     | [] => True
     | c :: _ => isspace c = false
     end
  /\ (forall a b, normalize_uroman R s <> a ++ [SPACE; SPACE] ++ b)
  /\ (forall a b, normalize_uroman R s <> a ++ [LF; LF] ++ b)
  /\ (forall a b, normalize_uroman R s <> a ++ [LF; SPACE] ++ b).
Proof.
  destruct (canonical_normalize_uroman R s) as [_ N1 S1 L1 R1].
  repeat apply conj.
  - now apply lstrip_fixed.
  - unfold rstrip in R1. apply (f_equal (@rev _)) in R1.
    rewrite rev_involutive in R1. now apply lstrip_fixed.
  - intros a b E. rewrite E, sp_clean_double_space in S1. discriminate.
  - intros a b E. rewrite E, nl_clean_after_newline in N1 by reflexivity.
    discriminate.
  - intros a b E. rewrite E, nl_clean_after_newline in N1 by reflexivity.
    discriminate.
Qed.

(** ** What normalisation keeps *)

Lemma is_lyric_char_not_space (c : char) :
  is_lyric_char c = true -> isspace c = false /\ kept c = true.
Proof.
  unfold is_lyric_char, is_paren, isspace, kept,
    APOSTROPHE, LPAREN, RPAREN, LF, SPACE.
  rewrite !orb_true_iff, !orb_false_iff, !andb_true_iff, !andb_false_iff,
    !N.eqb_eq, !N.eqb_neq, !N.leb_le, !N.leb_gt.
  lia.
Qed.

Lemma filter_sub_other (text : str) :
  filter is_lyric_char (sub_other text) = filter is_lyric_char text.
Proof.
  unfold sub_other. induction text as [|c text IH]; simpl; trivial.
  rewrite IH. destruct (kept c) eqn:K; trivial.
  change (is_lyric_char SPACE) with false. cbv iota.
  destruct (is_lyric_char c) eqn:E; trivial.
  apply is_lyric_char_not_space in E. destruct E as [_ E]. congruence.
Qed.

Lemma filter_sub_newlines (text : str) (f : bool) :
  filter is_lyric_char (sub_newlines f text) = filter is_lyric_char text.
Proof.
  revert f. induction text as [|c text IH]; intros f; simpl; trivial.
  destruct (f && nl_or_space c) eqn:E.
  - rewrite IH. apply andb_true_iff in E. destruct E as [_ E].
    destruct (is_lyric_char c) eqn:L; trivial.
    apply is_lyric_char_not_space in L. destruct L as [L _].
    unfold nl_or_space in E. apply orb_true_iff in E.
    destruct E as [E|E]; apply N.eqb_eq in E; subst c; discriminate L.
  - simpl. now rewrite IH.
Qed.

Lemma filter_sub_spaces (text : str) (f : bool) :
  filter is_lyric_char (sub_spaces f text) = filter is_lyric_char text.
Proof.
  revert f. induction text as [|c text IH]; intros f; simpl; trivial.
  destruct (N.eqb_spec c SPACE) as [->|_].
  - change (is_lyric_char SPACE) with false. cbv iota.
    destruct f; simpl; now rewrite IH.
  - simpl. now rewrite IH.
Qed.

Lemma filter_lstrip (s : str) :
  filter is_lyric_char (lstrip s) = filter is_lyric_char s.
Proof.
  induction s as [|c s IH]; simpl; trivial.
  destruct (isspace c) eqn:E; trivial. rewrite IH.
  destruct (is_lyric_char c) eqn:L; trivial.
  apply is_lyric_char_not_space in L. destruct L. congruence.
Qed.

Lemma filter_strip (s : str) :
  filter is_lyric_char (strip s) = filter is_lyric_char s.
Proof.
  unfold strip, rstrip.
  rewrite filter_rev, filter_lstrip, filter_rev, rev_involutive.
  apply filter_lstrip.
Qed.

(** X2.  Normalisation loses no letter, apostrophe or parenthesis of the
    lowercased text and keeps them in their order: it only blanks other
    characters and removes whitespace. *)
Theorem normalize_uroman_keeps_lyric_chars (R : Runtime) (s : str) :
  filter is_lyric_char (normalize_uroman R s)
  = filter is_lyric_char (lower R s).
Proof.
  unfold normalize_uroman.
  now rewrite filter_strip, filter_sub_spaces, filter_sub_newlines,
    filter_sub_other, replace_same.
Qed.

(** ** Tokens of the transcripts *)

Lemma split_ws_no_space (s cur : str) :
  Forall (fun c => isspace c = false) cur ->
  Forall (Forall (fun c => isspace c = false)) (split_ws cur s).
Proof.
  revert cur. induction s as [|c s IH]; intros cur Hcur; simpl.
  - destruct (truthy cur); repeat constructor. now apply Forall_rev.
  - destruct (isspace c) eqn:E; [destruct (truthy cur)|].
    + constructor; [now apply Forall_rev | now apply IH].
    + now apply IH.
    + apply IH. now constructor.
Qed.

Lemma kept_not_space (c : char) :
  kept c = true -> isspace c = false ->
  97 <= c <= 122 \/ c = APOSTROPHE \/ c = LPAREN \/ c = RPAREN.
Proof.
  unfold isspace, kept, APOSTROPHE, LPAREN, RPAREN, LF, SPACE.
  rewrite !orb_true_iff, !orb_false_iff, !andb_true_iff, !andb_false_iff,
    !N.eqb_eq, !N.eqb_neq, !N.leb_le, !N.leb_gt.
  lia.
Qed.

Lemma strip_parens_filter (text : str) :
  strip_parens text = filter (fun c => negb (is_paren c)) text.
Proof.
  unfold strip_parens, replace, is_paren.
  induction text as [|c text IH]; simpl; trivial.
  destruct (c =? LPAREN) eqn:E1; simpl.
  - exact IH.
  - destruct (c =? RPAREN) eqn:E2; simpl; [exact IH | now rewrite IH].
Qed.

(** X3.  Every token of [transcript] is a non-empty string of lowercase
    letters, apostrophes and parentheses; every token of
    [transcript_for_alignment] is a non-empty string of lowercase letters
    and apostrophes. *)
Theorem transcript_alphabet (R : Runtime) (T : Type) (text : _Text T)
  (self : T) :
  Forall (fun token =>
            token <> []
            /\ Forall (fun c => 97 <= c <= 122 \/ c = APOSTROPHE
                                \/ c = LPAREN \/ c = RPAREN) token)
         (transcript R self)
  /\ Forall (fun token =>
               token <> []
               /\ Forall (fun c => 97 <= c <= 122 \/ c = APOSTROPHE) token)
            (transcript_for_alignment R self).
Proof.
  pose proof (kept_normalize_uroman R (raw self)) as K.
  split.
  - unfold transcript, split, normalized.
    pose proof (split_ws_nonempty (normalize_uroman R (raw self)) []) as H1.
    pose proof (Forall_split_ws _ _ [] (Forall_nil _) K) as H2.
    pose proof (split_ws_no_space (normalize_uroman R (raw self)) []
                  (Forall_nil _)) as H3.
    rewrite Forall_forall in *. intros token Hin. split; [now apply H1|].
    specialize (H2 _ Hin). specialize (H3 _ Hin).
    rewrite Forall_forall in *. intros c Hc.
    apply kept_not_space; [now apply H2 | now apply H3].
  - unfold transcript_for_alignment, split, normalized.
    set (t := strip_parens (normalize_uroman R (raw self))).
    assert (K' : Forall (fun c => kept c = true) t).
    { unfold t, strip_parens. now apply Forall_replace_nil, Forall_replace_nil. }
    pose proof (strip_parens_no_paren (normalize_uroman R (raw self))) as P.
    fold t in P.
    pose proof (split_ws_nonempty t []) as H1.
    pose proof (Forall_split_ws _ _ [] (Forall_nil _) K') as H2.
    pose proof (split_ws_no_space t [] (Forall_nil _)) as H3.
    pose proof (Forall_split_ws _ _ [] (Forall_nil _) P) as H4.
    rewrite Forall_forall in *. intros token Hin. split; [now apply H1|].
    specialize (H2 _ Hin). specialize (H3 _ Hin). specialize (H4 _ Hin).
    rewrite Forall_forall in *. intros c Hc.
    specialize (H4 c Hc). unfold is_paren in H4.
    apply orb_false_iff in H4. destruct H4 as [H4 H5].
    apply N.eqb_neq in H4, H5.
    destruct (kept_not_space c (H2 c Hc) (H3 c Hc)) as [H|[H|[H|H]]]; tauto.
Qed.

(** Taking characters that are not whitespace out of a text takes them out
    of its tokens, and the tokens left with nothing disappear. *)
Lemma split_ws_filter (p : char -> bool) (s cur : str) :
  (forall c, isspace c = true -> p c = true) ->
  split_ws (filter p cur) (filter p s)
  = filter truthy (map (filter p) (split_ws cur s)).
Proof.
  intros Hp. revert cur. induction s as [|c s IH]; intros cur.
  - simpl. destruct cur as [|d cur]; trivial.
    cbn [truthy map]. rewrite filter_rev.
    destruct (filter p (d :: cur)) as [|e r] eqn:E; trivial.
    cbn [truthy filter].
    destruct (rev (e :: r)) eqn:E'; trivial.
    apply (f_equal (@List.length _)) in E'. rewrite length_rev in E'.
    discriminate.
  - cbn [filter]. destruct (p c) eqn:Pc.
    + cbn [split_ws]. destruct (isspace c) eqn:Sc.
      * pose proof (IH []) as IH0. cbn [filter] in IH0.
        destruct cur as [|d cur]; [exact IH0|].
        cbn [truthy map]. rewrite filter_rev, IH0.
        destruct (filter p (d :: cur)) as [|e r] eqn:E.
        -- reflexivity.
        -- cbn [truthy filter].
           destruct (rev (e :: r)) eqn:E'; trivial.
           apply (f_equal (@List.length _)) in E'. rewrite length_rev in E'.
           discriminate.
      * rewrite <- IH. cbn [filter]. now rewrite Pc.
    + cbn [split_ws].
      destruct (isspace c) eqn:Sc; [rewrite (Hp c Sc) in Pc; discriminate|].
      rewrite <- IH. cbn [filter]. now rewrite Pc.
Qed.

Lemma transcript_for_alignment_filter (R : Runtime) (T : Type)
  (text : _Text T) (self : T) :
  transcript_for_alignment R self
  = filter truthy (map strip_parens (transcript R self)).
Proof.
  unfold transcript_for_alignment, transcript, split.
  rewrite strip_parens_filter.
  rewrite (map_ext strip_parens _ strip_parens_filter).
  apply (split_ws_filter (fun c => negb (is_paren c)) _ []).
  intros c Hc. destruct (is_paren c) eqn:P; trivial.
  unfold is_paren in P. apply orb_true_iff in P.
  destruct P as [P|P]; apply N.eqb_eq in P; subst c; discriminate Hc.
Qed.

(** X4.  The alignment transcript is the transcript with the parentheses
    taken out of every token and the tokens left empty removed; it has at
    most as many tokens as the transcript. *)
Theorem transcript_for_alignment_of_transcript (R : Runtime) (T : Type)
  (text : _Text T) (self : T) :
  transcript_for_alignment R self
  = filter truthy (map strip_parens (transcript R self))
  /\ (List.length (transcript_for_alignment R self)
      <= List.length (transcript R self))%nat.
Proof.
  pose proof (transcript_for_alignment_filter R T text self) as E.
  split; [exact E|].
  rewrite E. etransitivity; [apply filter_length_le|]. now rewrite length_map.
Qed.

(** ** Words *)

Lemma not_space_clean (t : str) (f : bool) :
  Forall (fun c => isspace c = false) t ->
  nl_clean f t = true /\ sp_clean f t = true.
Proof.
  intros H. revert f. induction H as [|c t Hc _ IH]; intros f; simpl; [tauto|].
  assert (E : nl_or_space c = false /\ (c =? SPACE) = false /\ (c =? LF) = false).
  { unfold nl_or_space. destruct (N.eqb_spec c LF) as [->|_];
      [discriminate Hc|].
    destruct (N.eqb_spec c SPACE) as [->|_]; [discriminate Hc|]. tauto. }
  destruct E as [E1 [E2 E3]]. rewrite E1, E2, E3, !andb_false_r. simpl.
  apply IH.
Qed.

Lemma token_canonical (t : str) :
  Forall (fun c => kept c = true) t ->
  Forall (fun c => isspace c = false) t ->
  canonical t.
Proof.
  intros K S. split; trivial.
  - now apply not_space_clean.
  - now apply not_space_clean.
  - apply lstrip_fixed. destruct S; trivial.
  - unfold rstrip. apply Forall_rev in S.
    assert (E : lstrip (rev t) = rev t)
      by (apply lstrip_fixed; destruct S; trivial).
    rewrite E. apply rev_involutive.
Qed.

Lemma split_ws_token (t cur : str) :
  Forall (fun c => isspace c = false) t ->
  split_ws cur t = match rev cur ++ t with [] => [] | x => [x] end.
Proof.
  intros H. revert cur. induction H as [|c t Hc _ IH]; intros cur; simpl.
  - rewrite app_nil_r. destruct cur as [|d cur]; trivial. simpl.
    destruct (rev cur ++ [d]) eqn:E; trivial.
    apply (f_equal (@List.length _)) in E. rewrite length_app in E.
    simpl in E. lia.
  - rewrite Hc, IH. simpl. now rewrite <- app_assoc.
Qed.

Lemma words_are_normalized_aux (R : Runtime) (self : Line) :
  Forall (fun word => normalize_uroman R (raw word) = raw word
                      /\ Forall (fun c => isspace c = false) (raw word)
                      /\ raw word <> [])
         (words R self).
Proof.
  unfold words. apply Forall_map, Forall_forall. intros token Hin.
  apply filter_In in Hin. destruct Hin as [Hin Hne].
  unfold transcript, split, normalized in Hin.
  pose proof (Forall_split_ws _ _ [] (Forall_nil _)
                (kept_normalize_uroman R (raw self))) as K.
  pose proof (split_ws_no_space (normalize_uroman R (raw self)) []
                (Forall_nil _)) as S.
  rewrite Forall_forall in K, S.
  specialize (K _ Hin). specialize (S _ Hin). simpl raw.
  split; [now apply normalize_uroman_canonical, token_canonical|].
  split; [exact S | now apply truthy_nonempty].
Qed.

(** X5.  A word of a line is already normalised: normalising it again
    gives its raw text, its transcript is that text alone, and its
    syllables are those of the raw text. *)
Theorem words_are_normalized (R : Runtime) (self : Line) :
  Forall (fun word =>
            normalized R word = raw word
            /\ transcript R word = [raw word]
            /\ syllables R word = auto_split R (raw word) (language self))
         (words R self).
Proof.
  pose proof (words_are_normalized_aux R self) as W.
  rewrite Forall_forall in *. intros word Hin.
  destruct (W word Hin) as [E [S Hne]].
  assert (L : language word = language self).
  { unfold words in Hin. apply in_map_iff in Hin.
    destruct Hin as [t [<- _]]. reflexivity. }
  unfold syllables, transcript, normalized, split.
  rewrite E, L. repeat split.
  rewrite (split_ws_token (raw word) [] S).
  destruct word as [[|c t] lw]; [now simpl in Hne | reflexivity].
Qed.

(** ** The transcript of the lyrics and the words of its lines *)

Lemma split_ws_sub_newlines (t cur : str) (f : bool) :
  (f = true -> cur = []) ->
  split_ws cur (sub_newlines f t) = split_ws cur t.
Proof.
  revert cur f. induction t as [|c t IH]; intros cur f Hf; simpl; trivial.
  destruct (f && nl_or_space c) eqn:E.
  - apply andb_true_iff in E. destruct E as [-> E]. rewrite (Hf eq_refl).
    assert (S : isspace c = true).
    { unfold nl_or_space in E. apply orb_true_iff in E.
      destruct E as [E|E]; apply N.eqb_eq in E; now subst c. }
    rewrite S. simpl. now apply IH.
  - simpl. destruct (isspace c) eqn:S.
    + rewrite (IH [] (c =? LF)) by trivial. reflexivity.
    + apply IH. intros E'. apply N.eqb_eq in E'. subst c. discriminate S.
Qed.

Lemma split_ws_sub_spaces (t cur : str) (f : bool) :
  (f = true -> cur = []) ->
  split_ws cur (sub_spaces f t) = split_ws cur t.
Proof.
  revert cur f. induction t as [|c t IH]; intros cur f Hf; simpl; trivial.
  destruct (N.eqb_spec c SPACE) as [->|Hc].
  - change (isspace SPACE) with true. cbv iota. destruct f.
    + rewrite (Hf eq_refl). simpl. now apply IH.
    + simpl. change (isspace SPACE) with true. cbv iota.
      rewrite (IH [] true) by trivial. reflexivity.
  - simpl. destruct (isspace c).
    + rewrite (IH [] false) by discriminate. reflexivity.
    + apply IH. discriminate.
Qed.

Lemma split_lstrip (t : str) : split_ws [] (lstrip t) = split_ws [] t.
Proof.
  induction t as [|c t IH]; simpl; trivial.
  destruct (isspace c) eqn:E; trivial. simpl. now rewrite E.
Qed.

Lemma lstrip_suffix_spaces (s : str) :
  exists u, s = u ++ lstrip s /\ Forall (fun c => isspace c = true) u.
Proof.
  induction s as [|c s [u [IH HF]]]; simpl.
  - exists []. split; [reflexivity | constructor].
  - destruct (isspace c) eqn:E.
    + exists (c :: u). split; [simpl; now f_equal | now constructor].
    + exists []. split; [reflexivity | constructor].
Qed.

Lemma split_ws_trailing_spaces (a u cur : str) :
  Forall (fun c => isspace c = true) u ->
  split_ws cur (a ++ u) = split_ws cur a.
Proof.
  intros Hu. revert cur. induction a as [|c a IH]; intros cur; simpl.
  - revert cur. induction Hu as [|d u Hd _ IHu]; intros cur; simpl; trivial.
    rewrite Hd. rewrite IHu. simpl. destruct (truthy cur); reflexivity.
  - destruct (isspace c); [destruct (truthy cur)|]; now rewrite IH.
Qed.

Lemma split_strip (t : str) : split_ws [] (strip t) = split_ws [] t.
Proof.
  unfold strip, rstrip.
  destruct (lstrip_suffix_spaces (rev (lstrip t))) as [u [E Hu]].
  apply (f_equal (@rev _)) in E. rewrite rev_involutive, rev_app_distr in E.
  rewrite <- (split_lstrip t). symmetry.
  set (x := rev (lstrip (rev (lstrip t)))) in *. rewrite E.
  apply split_ws_trailing_spaces. now apply Forall_rev.
Qed.

(** The tokens of normalised text are those of the lowercased text with
    its other characters blanked: the later steps touch whitespace only. *)
Lemma split_normalize_uroman (R : Runtime) (s : str) :
  split (normalize_uroman R s) = split (sub_other (lower R s)).
Proof.
  unfold split, normalize_uroman.
  rewrite split_strip, split_ws_sub_spaces, split_ws_sub_newlines
    by discriminate.
  now rewrite replace_same.
Qed.

Lemma sub_other_lower_ascii (R : Runtime) (s : str) :
  forallb is_ascii s = true ->
  sub_other (lower R s) = map lowered_or_blank s.
Proof.
  intros H. unfold lower, sub_other. rewrite H, map_map. reflexivity.
Qed.

Lemma linebreak_blank (c : char) :
  islinebreak c = true -> isspace (lowered_or_blank c) = true.
Proof.
  intros H. unfold lowered_or_blank.
  destruct (kept (ascii_lower c)) eqn:K; [|reflexivity].
  revert H K. unfold ascii_lower.
  destruct ((65 <=? c) && (c <=? 90)) eqn:U; revert U;
    unfold islinebreak, kept, isspace, APOSTROPHE, LPAREN, RPAREN, LF, SPACE;
    rewrite ?orb_true_iff, ?orb_false_iff, ?andb_true_iff, ?andb_false_iff,
      ?N.eqb_eq, ?N.eqb_neq, ?N.leb_le, ?N.leb_gt; lia.
Qed.

Lemma split_ws_app_space (a b cur : str) (w : char) :
  isspace w = true ->
  split_ws cur (a ++ w :: b) = split_ws cur a ++ split_ws [] b.
Proof.
  intros Hw. revert cur. induction a as [|c a IH]; intros cur; simpl.
  - rewrite Hw. destruct (truthy cur); reflexivity.
  - destruct (isspace c); [destruct (truthy cur)|]; rewrite IH; reflexivity.
Qed.

(** Splitting the raw text into lines and each line into tokens gives the
    tokens of the whole text. *)
Lemma split_splitlines (g : char -> char) :
  (forall c, islinebreak c = true -> isspace (g c) = true) ->
  forall (n : nat) (s cur : str),
    (List.length s <= n)%nat ->
    concat (map (fun l => split_ws [] (map g l)) (splitlines_from cur s))
    = split_ws [] (map g (rev cur ++ s)).
Proof.
  intros Hg. induction n as [|n IH]; intros s cur Hn.
  - destruct s; [|simpl in Hn; lia]. simpl. rewrite app_nil_r.
    destruct cur as [|d cur]; [reflexivity|]. simpl. now rewrite app_nil_r.
  - destruct s as [|c s].
    + simpl. rewrite app_nil_r.
      destruct cur as [|d cur]; [reflexivity|]. simpl. now rewrite app_nil_r.
    + simpl in Hn. cbn [splitlines_from].
      destruct (islinebreak c) eqn:B.
      * rewrite map_app. cbn [map].
        rewrite (split_ws_app_space _ _ _ _ (Hg c B)).
        cbn [concat]. f_equal.
        destruct s as [|d s]; [reflexivity|].
        destruct ((c =? CR) && (d =? LF)) eqn:E.
        -- apply andb_true_iff in E. destruct E as [_ E].
           apply N.eqb_eq in E. subst d.
           rewrite (IH s []) by (simpl in Hn; lia). cbn [rev app map].
           cbn [split_ws]. now rewrite (Hg LF eq_refl).
        -- now rewrite (IH (d :: s) []) by lia.
      * rewrite (IH s (c :: cur)) by lia. cbn [rev].
        now rewrite <- app_assoc.
Qed.

Lemma Forall_splitlines_from (P : char -> Prop) (n : nat) :
  forall s cur : str,
    (List.length s <= n)%nat ->
    Forall P cur -> Forall P s ->
    Forall (Forall P) (splitlines_from cur s).
Proof.
  induction n as [|n IH]; intros s cur Hn Hcur Hs.
  - destruct s; [|simpl in Hn; lia]. simpl.
    destruct (truthy cur); repeat constructor. now apply Forall_rev.
  - destruct s as [|c s].
    + simpl. destruct (truthy cur); repeat constructor. now apply Forall_rev.
    + simpl in Hn. inversion Hs as [|? ? Hc Hs']; subst.
      cbn [splitlines_from]. destruct (islinebreak c).
      * constructor; [now apply Forall_rev|].
        destruct s as [|d s]; [constructor|].
        inversion Hs'; subst.
        destruct ((c =? CR) && (d =? LF)); apply IH;
          simpl in *; trivial; lia.
      * apply IH; [lia | now constructor | assumption].
Qed.

Lemma concat_map_filter_truthy (A : Type) (F : str -> list A) (l : list str) :
  F [] = [] -> concat (map F (filter truthy l)) = concat (map F l).
Proof.
  intros HF. induction l as [|x l IH]; simpl; trivial.
  destruct x; simpl; [now rewrite HF | now rewrite IH].
Qed.

Lemma filter_truthy_split_ws (s cur : str) :
  filter truthy (split_ws cur s) = split_ws cur s.
Proof.
  apply forallb_filter_id, forallb_forall. intros token Hin.
  pose proof (split_ws_nonempty s cur) as H. rewrite Forall_forall in H.
  now apply truthy_nonempty, H.
Qed.

(** The transcript of the lyrics, line by line. *)
Lemma transcript_by_lines (R : Runtime) (self : Lyrics) :
  forallb is_ascii (raw self) = true ->
  transcript R self = concat (map (transcript R) (lines self)).
Proof.
  intros A. unfold transcript at 1. unfold normalized.
  rewrite split_normalize_uroman, (sub_other_lower_ascii R _ A).
  unfold lines. rewrite map_map.
  assert (L : Forall (Forall (fun c => is_ascii c = true))
                     (splitlines (raw self))).
  { apply (Forall_splitlines_from _ (List.length (raw self)));
      [lia | apply Forall_nil | now apply Forall_forall, forallb_forall]. }
  transitivity (concat (map (fun l => split_ws [] (map lowered_or_blank l))
                            (filter truthy (splitlines (raw self))))).
  - rewrite concat_map_filter_truthy by reflexivity.
    unfold splitlines.
    now rewrite (split_splitlines _ linebreak_blank
                   (List.length (raw self)) (raw self) []) by lia.
  - f_equal. apply map_ext_in. intros l Hl. apply filter_In in Hl.
    destruct Hl as [Hl _]. rewrite Forall_forall in L. specialize (L l Hl).
    unfold transcript, normalized. simpl raw.
    rewrite split_normalize_uroman, sub_other_lower_ascii; trivial.
    now apply forallb_forall, Forall_forall.
Qed.

(** X6.  For ASCII lyrics, the transcript of the whole text is the raw
    text of the words of its lines, line after line and word after word:
    no token is lost, added or moved between the two views. *)
Theorem lyrics_transcript_is_words (R : Runtime) (self : Lyrics) :
  forallb is_ascii (raw self) = true ->
  transcript R self = map raw (concat (map (words R) (lines self))).
Proof.
  intros A. rewrite (transcript_by_lines R self A), concat_map, map_map.
  f_equal. apply map_ext. intros line. unfold words.
  rewrite map_map. simpl. rewrite map_id.
  unfold transcript, split. now rewrite filter_truthy_split_ws.
Qed.

Lemma lyrics_transcript_is_words_witness :
  transcript sample_runtime
    {| Lyrics_raw := py "Line one" ++ [LF; LF] ++ py "Line two";
       Lyrics_language := py "en" |}
  = [py "line"; py "one"; py "line"; py "two"].
Proof.
  rewrite lyrics_transcript_is_words; reflexivity.
Defined.

Lemma filter_concat (A : Type) (p : A -> bool) (l : list (list A)) :
  filter p (concat l) = concat (map (filter p) l).
Proof.
  induction l as [|x l IH]; simpl; trivial. now rewrite filter_app, IH.
Qed.

(** X7.  For ASCII lyrics, the alignment transcript of the whole text is
    the alignment transcripts of its lines put end to end. *)
Theorem lyrics_alignment_transcript_by_lines (R : Runtime) (self : Lyrics) :
  forallb is_ascii (raw self) = true ->
  transcript_for_alignment R self
  = concat (map (transcript_for_alignment R) (lines self)).
Proof.
  intros A. rewrite transcript_for_alignment_filter.
  rewrite (transcript_by_lines R self A), concat_map, filter_concat.
  rewrite !map_map. f_equal. apply map_ext. intros line.
  symmetry. apply transcript_for_alignment_filter.
Qed.

Lemma lyrics_alignment_transcript_by_lines_witness :
  transcript_for_alignment sample_runtime
    {| Lyrics_raw := py "la (la)" ++ [LF] ++ py "( ) oh";
       Lyrics_language := py "en" |}
  = [py "la"; py "la"; py "oh"].
Proof.
  rewrite lyrics_alignment_transcript_by_lines; reflexivity.
Defined.

(** ** The Japanese splitter *)

Lemma length_concat_nonempty (l : list str) :
  Forall (fun s => s <> []) l -> (List.length l <= List.length (concat l))%nat.
Proof.
  induction 1 as [|s l Hs _ IH]; simpl; trivial.
  rewrite length_app. destruct s; [congruence | simpl; lia].
Qed.

(** X8.  The Japanese splitter returns no empty syllable.  For a word
    without the marker ["#@"] it returns no syllable only when the word is
    empty, and never more syllables than the word has characters. *)
Theorem auto_split_ja_syllables (R : Runtime) (w : str) :
  contains_marker w = false ->
  Forall (fun syl => syl <> []) (auto_split R w (py "ja"))
  /\ (auto_split R w (py "ja") = [] <-> w = [])
  /\ (List.length (auto_split R w (py "ja")) <= List.length w)%nat.
Proof.
  intros Hw.
  change (auto_split R w (py "ja"))
    with (filter truthy (split_marker [] (subn_marker R None w))).
  set (l := filter truthy (split_marker [] (subn_marker R None w))).
  assert (N : Forall (fun syl => syl <> []) l).
  { apply Forall_forall. intros syl H. apply filter_In in H.
    now apply truthy_nonempty. }
  assert (C : concat l = w).
  { unfold l. rewrite concat_filter_truthy.
    now rewrite (concat_split_subn_marker R w Hw None []). }
  split; [exact N|]. split.
  - split; intros E.
    + rewrite E in C. simpl in C. now symmetry.
    + unfold l. rewrite E. reflexivity.
  - replace (List.length w) with (List.length (concat l)) by now rewrite C.
    now apply length_concat_nonempty.
Qed.

Lemma auto_split_ja_syllables_witness :
  Forall (fun syl => syl <> [])
         (auto_split sample_runtime (py "kyou") (py "ja"))
  /\ (auto_split sample_runtime (py "kyou") (py "ja") = [] <-> py "kyou" = [])
  /\ (List.length (auto_split sample_runtime (py "kyou") (py "ja"))
      <= List.length (py "kyou"))%nat.
Proof.
  apply (auto_split_ja_syllables sample_runtime (py "kyou")). reflexivity.
Defined.

Lemma boundary_after_vowel (R : Runtime) (v c : char) :
  is_vowel v = true -> romaji c = true ->
  AUTO_SPLIT_RE R (Some v) c = true.
Proof.
  unfold is_vowel, romaji. intros Hv Hc.
  apply existsb_exists in Hv. destruct Hv as [x [Hx Ex]].
  apply existsb_exists in Hc. destruct Hc as [y [Hy Ey]].
  apply N.eqb_eq in Ex, Ey. subst x y.
  simpl in Hx, Hy.
  repeat (destruct Hx as [<-|Hx]; [|]); try contradiction;
  repeat (destruct Hy as [<-|Hy]; [|]); try contradiction; reflexivity.
Qed.

Lemma romaji_not_hash (c : char) : romaji c = true -> (c =? HASH) = false.
Proof.
  destruct (N.eqb_spec c HASH) as [->|_]; [discriminate | reflexivity].
Qed.

Lemma vowel_last_of_rev (h : char) (t : str) :
  Forall (fun c => is_vowel c = false) t ->
  forall a v b, rev (h :: t) = a ++ v :: b -> is_vowel v = true -> b = [].
Proof.
  intros Ht a v b E Hv. simpl in E.
  destruct (exists_last (l := v :: b)) as [b' [l Eb]]; [discriminate|].
  destruct b as [|x b]; trivial. exfalso.
  rewrite Eb in E.
  destruct b' as [|v' b']; [destruct b; discriminate Eb|].
  injection Eb as <- Eb.
  change (a ++ (v :: b') ++ [l]) with (a ++ (v :: b') ++ [l]) in E.
  rewrite app_assoc in E. apply app_inj_tail in E. destruct E as [E _].
  apply Forall_rev in Ht. rewrite E in Ht.
  apply Forall_app in Ht. destruct Ht as [_ Ht]. inversion Ht; congruence.
Qed.

Lemma romaji_pieces (R : Runtime) (w : str) :
  Forall (fun c => romaji c = true) w ->
  forall prev cur,
    match cur with
    | [] => True
    | h :: t => prev = Some h /\ Forall (fun c => is_vowel c = false) t
    end ->
    Forall (fun syl => forall a v b,
                syl = a ++ v :: b -> is_vowel v = true -> b = [])
           (split_marker cur (subn_marker R prev w)).
Proof.
  induction 1 as [|c w Hc _ IH]; intros prev cur Inv.
  - simpl. constructor; [|constructor].
    destruct cur as [|h t].
    + intros a v b E. destruct a; discriminate E.
    + now apply vowel_last_of_rev.
  - pose proof (romaji_not_hash c Hc) as NH.
    assert (step : forall cur',
      split_marker cur' (c :: subn_marker R (Some c) w)
      = split_marker (c :: cur') (subn_marker R (Some c) w)).
    { intros cur'. apply split_marker_step. now rewrite NH. }
    simpl. destruct (AUTO_SPLIT_RE R prev c) eqn:B; simpl app.
    + rewrite split_marker_at_marker, step. constructor.
      * destruct cur as [|h t].
        -- intros a v b E. destruct a; discriminate E.
        -- now apply vowel_last_of_rev.
      * apply IH. split; [reflexivity | constructor].
    + rewrite step. apply IH. split; [reflexivity|].
      destruct cur as [|h t]; [constructor|].
      destruct Inv as [-> Ht]. constructor; trivial.
      destruct (is_vowel h) eqn:V; trivial.
      now rewrite (boundary_after_vowel R h c V Hc) in B.
Qed.

(** X9.  In a word written with the letters of romanised Japanese, every
    vowel ends its syllable: a syllable of the Japanese splitter has at
    most one vowel, and nothing after it. *)
Theorem romaji_vowel_ends_syllable (R : Runtime) (w : str) :
  Forall (fun c => romaji c = true) w ->
  Forall (fun syl => forall a v b,
              syl = a ++ v :: b -> is_vowel v = true -> b = [])
         (auto_split R w (py "ja")).
Proof.
  intros Hw.
  change (auto_split R w (py "ja"))
    with (filter truthy (split_marker [] (subn_marker R None w))).
  pose proof (romaji_pieces R w Hw None [] I) as H.
  rewrite Forall_forall in *. intros syl Hin.
  apply filter_In in Hin. now apply H.
Qed.

Lemma romaji_vowel_ends_syllable_witness :
  Forall (fun syl => forall a v b,
              syl = a ++ v :: b -> is_vowel v = true -> b = [])
         (auto_split sample_runtime (py "shinjitsu") (py "ja")).
Proof.
  apply (romaji_vowel_ends_syllable sample_runtime (py "shinjitsu")).
  repeat constructor.
Defined.

(** ** The English splitter *)

Lemma split_on_nonempty (sep : char) (s cur : str) : split_on sep cur s <> [].
Proof.
  revert cur. induction s as [|c s IH]; intros cur; simpl; [discriminate|].
  destruct (c =? sep); [discriminate | apply IH].
Qed.

Lemma custom_entries_nonempty :
  Forall (fun e => snd e <> [] /\ Forall (fun syl => syl <> []) (snd e))
         _CUSTOM_ENGLISH_SYLLABLES.
Proof.
  assert (H : forallb (fun e => match snd e with [] => false | _ => true end
                                && forallb truthy (snd e))
                      _CUSTOM_ENGLISH_SYLLABLES = true) by reflexivity.
  rewrite forallb_forall in H. apply Forall_forall. intros e He.
  specialize (H e He). apply andb_true_iff in H. destruct H as [H1 H2].
  split; [intros E; destruct e as [k [|x v]]; simpl in *; congruence|].
  rewrite forallb_forall in H2. apply Forall_forall. intros syl Hs.
  now apply truthy_nonempty, H2.
Qed.

(** X10.  The English splitter always returns at least one syllable,
    whatever the word and whatever the hyphenator answers. *)
Theorem auto_split_en_nonempty (R : Runtime) (w : str) :
  auto_split R w (py "en") <> [].
Proof.
  change (auto_split R w (py "en")) with (split_english R w).
  unfold split_english.
  destruct (dict_get w _CUSTOM_ENGLISH_SYLLABLES) as [syl|] eqn:E.
  - apply dict_get_In in E. pose proof custom_entries_nonempty as H.
    rewrite Forall_forall in H. now apply (H _ E).
  - cbv zeta. destruct (truthy (pyphen_inserted R w));
      [apply split_on_nonempty | discriminate].
Qed.

(** X11.  The custom dictionary is well formed: no word is entered twice,
    every word is in normalised form (so that a word of a line can be equal
    to it), and every entry is a non-empty list of non-empty syllables. *)
Theorem custom_dictionary_well_formed (R : Runtime) :
  NoDup (map fst _CUSTOM_ENGLISH_SYLLABLES)
  /\ Forall (fun e => normalize_uroman R (fst e) = fst e
                      /\ snd e <> []
                      /\ Forall (fun syl => syl <> []) (snd e))
            _CUSTOM_ENGLISH_SYLLABLES.
Proof.
  split.
  - assert (E : nodup (list_eq_dec N.eq_dec)
                  (map fst _CUSTOM_ENGLISH_SYLLABLES)
                = map fst _CUSTOM_ENGLISH_SYLLABLES) by (vm_compute; reflexivity).
    rewrite <- E. apply NoDup_nodup.
  - assert (H : forallb (fun e => str_eqb (normalize_uroman R (fst e)) (fst e))
                        _CUSTOM_ENGLISH_SYLLABLES = true)
      by (vm_compute; reflexivity).
    rewrite forallb_forall in H.
    pose proof custom_entries_nonempty as H'. rewrite Forall_forall in *.
    intros e He. split; [now apply str_eqb_eq, H | now apply H'].
Qed.

(** ** The lines of the lyrics *)

Lemma concat_splitlines_from (n : nat) :
  forall s cur : str,
    (List.length s <= n)%nat ->
    concat (splitlines_from cur s)
    = rev cur ++ filter (fun c => negb (islinebreak c)) s.
Proof.
  induction n as [|n IH]; intros s cur Hn.
  - destruct s; [|simpl in Hn; lia]. simpl.
    destruct cur; simpl; now rewrite ?app_nil_r.
  - destruct s as [|c s].
    + simpl. destruct cur; simpl; now rewrite ?app_nil_r.
    + simpl in Hn. cbn [splitlines_from filter].
      destruct (islinebreak c) eqn:B; cbn [negb].
      * cbn [concat]. f_equal.
        destruct s as [|d s]; [reflexivity|].
        destruct ((c =? CR) && (d =? LF)) eqn:E.
        -- apply andb_true_iff in E. destruct E as [_ E].
           apply N.eqb_eq in E. subst d.
           rewrite (IH s []) by (simpl in Hn; lia). reflexivity.
        -- now rewrite (IH (d :: s) []) by lia.
      * rewrite (IH s (c :: cur)) by lia. cbn [rev].
        now rewrite <- app_assoc.
Qed.

Lemma filter_linebreaks (s : str) :
  Forall (fun c => islinebreak c = true) s ->
  filter (fun c => negb (islinebreak c)) s = [].
Proof. induction 1 as [|c s Hc _ IH]; simpl; trivial. now rewrite Hc. Qed.

(** X12.  The lines of a [Lyrics], put end to end, are its raw text
    without the line-break characters, and no line has such a character:
    splitting into lines loses nothing else.  A [Lyrics] has no line
    exactly when its raw text is made of line breaks only. *)
Theorem lines_keep_raw_text (self : Lyrics) :
  concat (map raw (lines self))
  = filter (fun c => negb (islinebreak c)) (raw self)
  /\ Forall (fun line => Forall (fun c => islinebreak c = false) (raw line))
            (lines self)
  /\ (lines self = []
      <-> Forall (fun c => islinebreak c = true) (raw self)).
Proof.
  assert (C : concat (map raw (lines self))
              = filter (fun c => negb (islinebreak c)) (raw self)).
  { unfold lines. rewrite map_map. simpl. rewrite map_id.
    rewrite concat_filter_truthy. unfold splitlines.
    now rewrite (concat_splitlines_from (List.length (raw self)))
      by apply le_n. }
  split; [exact C|]. split.
  - apply Forall_forall. intros line Hin.
    assert (Hsub : incl (raw line) (concat (map raw (lines self)))).
    { intros c Hc. apply in_concat. exists (raw line).
      split; [now apply in_map | exact Hc]. }
    apply Forall_forall. intros c Hc. apply Hsub in Hc. rewrite C in Hc.
    apply filter_In in Hc. now apply negb_true_iff.
  - split; intros H.
    + rewrite H in C. cbn [map concat] in C.
      apply Forall_forall. intros c Hc.
      destruct (islinebreak c) eqn:B; trivial.
      assert (Hin : In c (filter (fun c => negb (islinebreak c)) (raw self)))
        by (apply filter_In; split; [exact Hc | now rewrite B]).
      rewrite <- C in Hin. contradiction.
    + rewrite (filter_linebreaks _ H) in C.
      destruct (lines self) as [|line rest] eqn:L; trivial. exfalso.
      assert (Hne : raw line <> []).
      { assert (Hin : In line (lines self)) by (rewrite L; now left).
        unfold lines in Hin. apply in_map_iff in Hin.
        destruct Hin as [r [<- Hr]]. apply filter_In in Hr.
        simpl. now apply truthy_nonempty. }
      simpl in C. apply app_eq_nil in C. tauto.
Qed.

(** X13.  The language of a [Lyrics] reaches every line and every word
    unchanged, so that the syllables of every word are those of its raw
    text in the language of the [Lyrics]. *)
Theorem language_reaches_words (R : Runtime) (self : Lyrics) :
  Forall (fun line =>
            language line = language self
            /\ Forall (fun word =>
                         language word = language self
                         /\ syllables R word
                            = auto_split R (raw word) (language self))
                      (words R line))
         (lines self).
Proof.
  unfold lines. apply Forall_map, Forall_forall. intros r _.
  split; [reflexivity|].
  set (line := {| Line_raw := r; Line_language := language self |}).
  pose proof (words_are_normalized_aux R line) as W.
  rewrite Forall_forall in *. intros word Hin. specialize (W word Hin).
  assert (L : language word = language self).
  { unfold words in Hin. apply in_map_iff in Hin.
    destruct Hin as [t [<- _]]. reflexivity. }
  split; [exact L|]. destruct W as [E _].
  unfold syllables, normalized. now rewrite L, E.
Qed.

(** ** The files of the alignment script *)

Ltac resolve_cases H :=
  unfold resolve_files, bind, raising, is_None in H; simpl in H;
  repeat match type of H with
         | context [path_exists ?P ?f] =>
             destruct (path_exists P f) eqn:?; simpl in H;
             try discriminate H
         | context [match ?x with Some _ => _ | None => _ end] =>
             destruct x eqn:?; simpl in H; try discriminate H
         | context [match ?x with [] => _ | _ :: _ => _ end] =>
             destruct x eqn:?; simpl in H; try discriminate H
         end.

(** X14.  The script goes on only with a vocals file and a lyrics file
    that exist, wherever they come from. *)
Theorem resolved_files_exist (P : Pathlib) (available : bool)
  (state : option (PipelineState P))
  (vocals_file lyrics_file output_file : option (path P))
  (v l : path P) (o : option (path P)) :
  resolve_files P available state vocals_file lyrics_file output_file
  = inr (v, l, o) ->
  path_exists P v = true /\ path_exists P l = true.
Proof.
  unfold resolve_files, bind.
  match goal with
  | |- match ?first with _ => _ end = _ -> _ =>
      destruct first as [e|[[v' l'] o']]; [discriminate|]
  end.
  destruct (path_exists P v') eqn:Ev; [|discriminate].
  destruct (path_exists P l') eqn:El; [|discriminate].
  simpl. intros [= <- <- _]. now split.
Qed.

Lemma resolved_files_exist_witness :
  path_exists (sample_pathlib [py "v.wav"; py "l.txt"]) (py "v.wav") = true
  /\ path_exists (sample_pathlib [py "v.wav"; py "l.txt"]) (py "l.txt") = true.
Proof.
  apply (resolved_files_exist (sample_pathlib [py "v.wav"; py "l.txt"])
           false None (Some (py "v.wav")) (Some (py "l.txt")) None
           (py "v.wav") (py "l.txt") None).
  reflexivity.
Defined.

(** X15.  A file given on the command line is never replaced by a
    detected one: when the script goes on, it goes on with the vocals,
    lyrics and output files that were given, wherever one was given. *)
Theorem given_files_are_kept (P : Pathlib) (available : bool)
  (state : option (PipelineState P))
  (vocals_file lyrics_file output_file : option (path P))
  (v l : path P) (o : option (path P)) :
  resolve_files P available state vocals_file lyrics_file output_file
  = inr (v, l, o) ->
  match vocals_file with Some given => v = given | None => True end
  /\ match lyrics_file with Some given => l = given | None => True end
  /\ match output_file with Some given => o = Some given | None => True end.
Proof.
  intros H.
  destruct available, vocals_file, lyrics_file, output_file;
    try destruct state as [[[output_dir|] stems]|];
    try discriminate H;
    resolve_cases H; injection H as <- <- <-; repeat split.
Qed.

Lemma given_files_are_kept_witness :
  py "v.wav" = py "v.wav" /\ py "l.txt" = py "l.txt" /\ True.
Proof.
  apply (given_files_are_kept (sample_pathlib [py "v.wav"; py "l.txt"])
           false None (Some (py "v.wav")) (Some (py "l.txt")) None
           (py "v.wav") (py "l.txt") None).
  reflexivity.
Defined.

(** X16.  When no vocals file is given and the script goes on, the
    pipeline state was read, and the vocals are the processed ones
    ([stems/vocals_yohane.wav] under the output directory) if that file
    exists; only otherwise are they the non-empty ["vocals"] entry of the
    stems. *)
Theorem detected_vocals (P : Pathlib) (available : bool)
  (state : option (PipelineState P))
  (lyrics_file output_file : option (path P))
  (v l : path P) (o : option (path P)) :
  resolve_files P available state None lyrics_file output_file
  = inr (v, l, o) ->
  exists st output_dir,
    available = true /\ state = Some st
    /\ get_output_dir st = Some output_dir
    /\ let yohane_vocals :=
         truediv P (truediv P output_dir (py "stems"))
                 (py "vocals_yohane.wav") in
       if path_exists P yohane_vocals then v = yohane_vocals
       else exists stems vocals,
           get_stems st = Some (Some stems)
           /\ stems_get (py "vocals") stems = Some vocals
           /\ vocals <> [] /\ v = Path P vocals.
Proof.
  intros H. destruct available; [|discriminate H].
  destruct state as [st|]; [|discriminate H].
  destruct (get_output_dir st) as [output_dir|] eqn:D;
    [|unfold resolve_files, bind, raising in H; simpl in H;
      rewrite D in H; discriminate H].
  exists st, output_dir. repeat split; trivial. cbv zeta.
  unfold resolve_files, bind, raising in H. simpl in H. rewrite D in H.
  destruct (path_exists P (truediv P (truediv P output_dir (py "stems"))
                             (py "vocals_yohane.wav"))) eqn:Y.
  - resolve_cases H; injection H as <- _ _; reflexivity.
  - destruct (get_stems st) as [[stems|]|]; try discriminate H.
    destruct stems as [|entry stems]; [discriminate H|].
    destruct (stems_get (py "vocals") (entry :: stems)) as [[|c vocals]|] eqn:G;
      try discriminate H.
    exists (entry :: stems), (c :: vocals).
    repeat split; trivial; [discriminate|].
    resolve_cases H; injection H as <- _ _; reflexivity.
Qed.

Lemma detected_vocals_witness :
  exists (st : PipelineState sample_files) (output_dir : path sample_files),
    true = true
    /\ Some sample_state = Some st
    /\ get_output_dir st = Some output_dir
    /\ let yohane_vocals :=
         truediv sample_files (truediv sample_files output_dir (py "stems"))
                 (py "vocals_yohane.wav") in
       if path_exists sample_files yohane_vocals
       then py "out/stems/vocals_yohane.wav" = yohane_vocals
       else exists stems vocals,
           get_stems st = Some (Some stems)
           /\ stems_get (py "vocals") stems = Some vocals
           /\ vocals <> []
           /\ py "out/stems/vocals_yohane.wav" = Path sample_files vocals.
Proof.
  apply (detected_vocals sample_files true (Some sample_state) None None
           (py "out/stems/vocals_yohane.wav")
           (py "out/lyrics_raw_ytmusic.txt")
           (Some (py "out/vocals.ass"))).
  reflexivity.
Defined.

(** X17.  With the [pipeline_state] module at hand the script never goes
    on without an output file; without the module it goes on only when the
    vocals and the lyrics were both given, and with the output file as it
    was given, which may be none. *)
Theorem resolved_output (P : Pathlib) (available : bool)
  (state : option (PipelineState P))
  (vocals_file lyrics_file output_file : option (path P))
  (v l : path P) (o : option (path P)) :
  resolve_files P available state vocals_file lyrics_file output_file
  = inr (v, l, o) ->
  if available then o <> None
  else vocals_file = Some v /\ lyrics_file = Some l /\ o = output_file.
Proof.
  intros H.
  destruct available, vocals_file, lyrics_file, output_file;
    try destruct state as [[[output_dir|] stems]|];
    try discriminate H;
    resolve_cases H; injection H as <- <- <-;
    first [discriminate | repeat split].
Qed.

Lemma resolved_output_witness :
  Some (py "v.wav") = Some (py "v.wav")
  /\ Some (py "l.txt") = Some (py "l.txt")
  /\ @None str = None.
Proof.
  apply (resolved_output (sample_pathlib [py "v.wav"; py "l.txt"])
           false None (Some (py "v.wav")) (Some (py "l.txt")) None
           (py "v.wav") (py "l.txt") None).
  reflexivity.
Defined.

(** X18.  With the [pipeline_state] module at hand and one of the three
    files not given, the script needs the state: when the state or its
    output directory cannot be read it leaves with exit code 1, even if
    the vocals and the lyrics were given. *)
Theorem unreadable_state_exits (P : Pathlib)
  (state : option (PipelineState P))
  (vocals_file lyrics_file output_file : option (path P)) :
  is_None vocals_file || is_None lyrics_file || is_None output_file = true ->
  match state with Some st => get_output_dir st = None | None => True end ->
  resolve_files P true state vocals_file lyrics_file output_file
  = inl (Exit 1).
Proof.
  intros Hm Hs. unfold resolve_files. rewrite Hm. simpl.
  destruct state as [st|]; [|reflexivity]. simpl. now rewrite Hs.
Qed.

Lemma unreadable_state_exits_witness :
  resolve_files (sample_pathlib [py "v.wav"; py "l.txt"]) true None
    (Some (py "v.wav")) (Some (py "l.txt")) None
  = inl (Exit 1).
Proof.
  apply (unreadable_state_exits (sample_pathlib [py "v.wav"; py "l.txt"])
           None (Some (py "v.wav")) (Some (py "l.txt")) None).
  - reflexivity.
  - exact I.
Defined.

(** ** The entry of everyday *)

Lemma not_space_no_marker (t : str) :
  Forall (fun c => kept c = true) t ->
  Forall (fun c => isspace c = false) t ->
  contains_marker t = false.
Proof.
  intros K. induction K as [|c t Kc _ IH]; intros S; [reflexivity|].
  inversion S as [|? ? Sc St]; subst.
  destruct t as [|d t]; [reflexivity|].
  change (contains_marker (c :: d :: t))
    with (((c =? HASH) && (d =? AT)) || contains_marker (d :: t)).
  rewrite (IH St), orb_false_r.
  destruct (N.eqb_spec c HASH) as [->|_]; [discriminate Kc | reflexivity].
Qed.

(** C1.  The code breaks the statement at one word that the program
    passes to the splitter.  The dictionary entry of ["everyday"] is
    ["ev"], ["ry"], ["day"], which put end to end give ["evryday"]: a
    letter is lost, for the word as for the lyrics ["Everyday!"].  The
    code keeps the statement everywhere else it decides: each of the 37
    other entries of the dictionary gives its word back, and so does the
    Japanese splitter for every word of every line. *)
Theorem auto_split_everyday (R : Runtime) :
  auto_split R (py "everyday") (py "en") = [py "ev"; py "ry"; py "day"]
  /\ concat (auto_split R (py "everyday") (py "en")) = py "evryday"
  /\ py "evryday" <> py "everyday"
  /\ map (syllables R)
         (concat (map (words R)
                      (lines {| Lyrics_raw := py "Everyday!";
                                Lyrics_language := py "en" |})))
     = [[py "ev"; py "ry"; py "day"]]
  /\ Forall (fun entry => fst entry = py "everyday"
                          \/ concat (snd entry) = fst entry)
            _CUSTOM_ENGLISH_SYLLABLES
  /\ (forall line : Line,
         Forall (fun word =>
                   concat (auto_split R (raw word) (py "ja")) = raw word)
                (words R line)).
Proof.
  split; [reflexivity|]. split; [reflexivity|]. split; [discriminate|].
  split; [reflexivity|]. split; [exact custom_entries_concat|].
  intros line. unfold words. apply Forall_map, Forall_forall.
  intros token Hin. apply filter_In in Hin. destruct Hin as [Hin _].
  unfold transcript, split, normalized in Hin.
  pose proof (Forall_split_ws _ _ [] (Forall_nil _)
                (kept_normalize_uroman R (raw line))) as K.
  pose proof (split_ws_no_space (normalize_uroman R (raw line)) []
                (Forall_nil _)) as S.
  rewrite Forall_forall in K, S.
  specialize (K _ Hin). specialize (S _ Hin). simpl raw.
  change (auto_split R token (py "ja"))
    with (filter truthy (split_marker [] (subn_marker R None token))).
  rewrite concat_filter_truthy.
  now rewrite (concat_split_subn_marker R token
                 (not_space_no_marker token K S) None []).
Qed.
